(** * doclint: the rule engine of the technical documentation linter

    A shallow embedding of [src/doclint.js]: the text helpers
    ([extractText], [isSentenceCase], [splitIntoSentences], [countWords]),
    the five rule evaluators, [lintFile] and [formatOutput].

    Conventions of the embedding.
    - A JavaScript string is a [string]; a character is an [ascii].  The
      embedding is exact for text in the ASCII range: [isSpace] is the
      ASCII part of the regular expression class [\s] (which is also what
      [trim] removes), [toUpperCase] and [toLowerCase] map [a-z] and [A-Z]
      onto each other and leave every other character alone.
    - The document tree is the unist tree handed to the evaluators; the
      markdown parser, the file system and the command line are outside
      the embedding, so [lintFile] takes the tree where the source takes
      the path of the file it parses.
    - A call that can throw returns an [outcome]. *)

From Stdlib Require Import List String Ascii Bool Arith ZArith Lia.
From Stdlib Require Import Sorted Permutation DecimalString.
From Stdlib Require DecimalNat DecimalFacts.
Import ListNotations.
Open Scope string_scope.
Open Scope list_scope.
Open Scope nat_scope.

Set Implicit Arguments.

(* ------------------------------------------------------------------ *)
(** ** Characters and strings *)

Module Text.

(** The ASCII members of [\s]: TAB, LF, VT, FF, CR and the space. *)
Definition isSpace (c : ascii) : bool :=
  let n := nat_of_ascii c in
  ((9 <=? n) && (n <=? 13)) || (n =? 32).

Definition isLower (c : ascii) : bool :=
  let n := nat_of_ascii c in (97 <=? n) && (n <=? 122).

Definition isUpper (c : ascii) : bool :=
  let n := nat_of_ascii c in (65 <=? n) && (n <=? 90).

Definition isLetter (c : ascii) : bool := isLower c || isUpper c.

(** [c.toUpperCase()] and [c.toLowerCase()] on one character. *)
Definition upperChar (c : ascii) : ascii :=
  if isLower c then ascii_of_nat (nat_of_ascii c - 32) else c.

Definition lowerChar (c : ascii) : ascii :=
  if isUpper c then ascii_of_nat (nat_of_ascii c + 32) else c.

Fixpoint mapString (f : ascii -> ascii) (s : string) : string :=
  match s with
  | EmptyString => EmptyString
  | String c s' => String (f c) (mapString f s')
  end.

Definition toLowerCase : string -> string := mapString lowerChar.

Fixpoint dropWhile (p : ascii -> bool) (s : string) : string :=
  match s with
  | EmptyString => EmptyString
  | String c s' => if p c then dropWhile p s' else s
  end.

Fixpoint takeWhile (p : ascii -> bool) (s : string) : string :=
  match s with
  | EmptyString => EmptyString
  | String c s' => if p c then String c (takeWhile p s') else EmptyString
  end.

Fixpoint allChars (p : ascii -> bool) (s : string) : bool :=
  match s with
  | EmptyString => true
  | String c s' => p c && allChars p s'
  end.

(** [s.trimEnd()]: a character is kept when it is not white space or
    when something that is kept follows it. *)
Fixpoint trimEnd (s : string) : string :=
  match s with
  | EmptyString => EmptyString
  | String c s' =>
      match trimEnd s' with
      | EmptyString => if isSpace c then EmptyString else String c EmptyString
      | t => String c t
      end
  end.

(** [s.trim()] *)
Definition trim (s : string) : string := trimEnd (dropWhile isSpace s).

(** [Boolean(s)] on a string: the empty string is the only falsy one. *)
Definition truthy (s : string) : bool :=
  match s with EmptyString => false | String _ _ => true end.

(** [text.includes(phrase)]: [phrase] starts at some position of [text]. *)
Fixpoint includes (text phrase : string) : bool :=
  if prefix phrase text then true
  else match text with
       | EmptyString => false
       | String _ text' => includes text' phrase
       end.

(** The first piece gets one more character in front. *)
Definition consHead (c : ascii) (pieces : list string) : list string :=
  match pieces with
  | [] => [String c EmptyString]
  | p :: ps => String c p :: ps
  end.

(** [s.split(/[class]+/)] for a character class [sep].  The regular
    expression matches a maximal run of class characters, so the pieces
    are what lies between the runs: [splitRuns] reads a piece, [afterRun]
    is inside a run.  A run at the start or at the end of [s] leaves an
    empty piece there, and the empty string splits into one empty piece. *)
Fixpoint splitRuns (sep : ascii -> bool) (s : string) : list string :=
  match s with
  | EmptyString => [EmptyString]
  | String c s' =>
      if sep c then EmptyString :: afterRun sep s'
      else consHead c (splitRuns sep s')
  end
with afterRun (sep : ascii -> bool) (s : string) : list string :=
  match s with
  | EmptyString => [EmptyString]
  | String c s' =>
      if sep c then afterRun sep s'
      else consHead c (splitRuns sep s')
  end.

End Text.

Import Text.

(* ------------------------------------------------------------------ *)
(** ** Helper functions of the linter *)

(** [words[i].length > 0 && words[i][0] === words[i][0].toUpperCase()] *)
Definition startsUpper (w : string) : bool :=
  match w with
  | EmptyString => false
  | String c _ => Ascii.eqb c (upperChar c)
  end.

(** The loop [for (let i = 1; i < words.length; i++)] of [isSentenceCase]:
    it runs over the words after the first and counts. *)
Fixpoint countCapitalized (ws : list string) (capitalizedCount : nat) : nat :=
  match ws with
  | [] => capitalizedCount
  | w :: ws' =>
      countCapitalized ws'
        (if startsUpper w then S capitalizedCount else capitalizedCount)
  end.

Definition capitalizedCount (words : list string) : nat :=
  countCapitalized (tl words) 0.

(** [isSentenceCase(text)].  The last line compares an integer with
    [words.length / 2], a half-integer: [c < n / 2] is [2 * c < n]. *)
Definition isSentenceCase (text : string) : bool :=
  match text with
  | EmptyString => true
  | String c0 _ =>
      if negb (Ascii.eqb c0 (upperChar c0)) then false
      else
        let words := splitRuns isSpace text in
        if List.length words <=? 1 then true
        else 2 * capitalizedCount words <? List.length words
  end.

Definition isTerminator (c : ascii) : bool :=
  Ascii.eqb c "."%char || Ascii.eqb c "!"%char || Ascii.eqb c "?"%char.

(** [text.split(/[.!?]+/).map(s => s.trim()).filter(Boolean)] *)
Definition splitIntoSentences (text : string) : list string :=
  filter truthy (map trim (splitRuns isTerminator text)).

(** [text.split(/\s+/).filter(w => w.length > 0).length] *)
Definition countWords (text : string) : nat :=
  List.length (filter (fun w => 0 <? String.length w) (splitRuns isSpace text)).

(* ------------------------------------------------------------------ *)
(** ** The document tree and its traversal *)

(** A unist node: its [type], the [value] of a literal (text) node, the
    start line [position?.start.line] when the node has a position, and
    its children. *)
#[warnings="-register-all"]
Inductive node : Type :=
  Node (type : string) (value : string) (line : option nat)
       (children : list node).

Definition nodeType (n : node) : string :=
  match n with Node t _ _ _ => t end.
Definition nodeValue (n : node) : string :=
  match n with Node _ v _ _ => v end.
Definition position (n : node) : option nat :=
  match n with Node _ _ l _ => l end.
Definition children (n : node) : list node :=
  match n with Node _ _ _ cs => cs end.

(** [node.position?.start.line || 0] *)
Definition startLine (n : node) : nat :=
  match position n with Some l => l | None => 0 end.

(** The tests handed to [visit]: a type name, or an array of them. *)
Definition ofType (t : string) (n : node) : bool := String.eqb (nodeType n) t.
Definition ofTypes (ts : list string) (n : node) : bool :=
  existsb (fun t => String.eqb (nodeType n) t) ts.

Section Visit.
Variable S : Type.
Variable test : node -> bool.
Variable visitor : node -> S -> S.

(** [visit(tree, test, visitor)] of unist-util-visit with a visitor
    that returns nothing: the tree is walked in preorder, the root
    included, and the visitor is called on the nodes that pass the
    test.  The state [S] is what the visitor's closure updates. *)
Fixpoint visit (n : node) (s : S) : S :=
  match n with
  | Node _ _ _ cs =>
      (fix visitAll (cs : list node) (s : S) : S :=
         match cs with
         | [] => s
         | c :: cs' => visitAll cs' (visit c s)
         end) cs (if test n then visitor n s else s)
  end.
End Visit.

(** The nodes of a tree in the order [visit] reaches them. *)
Fixpoint preorder (n : node) : list node :=
  match n with
  | Node _ _ _ cs => n :: flat_map preorder cs
  end.

(** [extractText(node)] *)
Definition extractText (n : node) : string :=
  visit (ofType "text") (fun textNode text => (text ++ nodeValue textNode)%string) n
    EmptyString.

(* ------------------------------------------------------------------ *)
(** ** Configuration and diagnostics *)

(** [args] of a rule: each field may be missing.  A rule entry is taken
    in the shape the configuration file documents: an object with [level],
    [message] and [args], where [min] and [limit] are integers and
    [phrases] is an array of strings.  On an entry of another shape (no
    [args], a null entry, a phrase that is not a string) the evaluators of
    the source throw a TypeError; such entries are not represented. *)
Record ruleArgs : Type := mkArgs {
  arg_min : option Z;
  arg_limit : option Z;
  arg_phrases : option (list string)
}.

Record ruleConfig : Type := mkRuleConfig {
  level : string;
  cfg_message : string;
  args : ruleArgs
}.

(** [config.rules] is read through [Object.entries]: the entries in the
    order of the mapping. *)
Record lintConfig : Type := mkConfig {
  cfg_rules : list (string * ruleConfig);
  format : string
}.

(** The object literal every evaluator pushes. *)
Record diagnostic : Type := mkDiagnostic {
  line : nat;
  rule : string;
  severity : string;
  message : string
}.

Definition issue (n : node) (ruleId : string) (config : ruleConfig) : diagnostic :=
  {| line := startLine n; rule := ruleId;
     severity := level config; message := cfg_message config |}.

(** [x || d] on a number that may be missing: 0 is falsy. *)
Definition orDefault (x : option Z) (d : Z) : Z :=
  match x with
  | Some 0%Z => d
  | Some v => v
  | None => d
  end.

(** [config.args.phrases || []] *)
Definition orEmpty (x : option (list string)) : list string :=
  match x with Some l => l | None => [] end.

Definition defaultConfig : lintConfig :=
  {| cfg_rules :=
       [ ("headingCase",
           mkRuleConfig "warning" "Heading should be in sentence case."
             (mkArgs None None None));
         ("minimumWordsInSentence",
           mkRuleConfig "warning" "Sentence may contain too few words"
             (mkArgs (Some 10%Z) None None));
         ("maxWordsInSentence",
           mkRuleConfig "error" "Too many words in sentence."
             (mkArgs None (Some 25%Z) None));
         ("maxSentencesInParagraph",
           mkRuleConfig "error" "Too many sentences in paragraph."
             (mkArgs None (Some 5%Z) None));
         ("bannedPhrases",
           mkRuleConfig "error" "Banned phrase identified."
             (mkArgs None None
                (Some ["are used to"; "has been"; "has finished";
                       "if you want to"]))) ];
     format := "text" |}.

(* ------------------------------------------------------------------ *)
(** ** Rule implementations

    Each evaluator visits the tree with a visitor that pushes onto
    [issues]; the visitor is a function of the node and of the issues so
    far. *)

Definition push (issues : list diagnostic) (d : diagnostic) : list diagnostic :=
  issues ++ [d].

Definition headingCaseVisitor (config : ruleConfig)
    (headingNode : node) (issues : list diagnostic) : list diagnostic :=
  let text := extractText headingNode in
  if negb (isSentenceCase text)
  then push issues (issue headingNode "heading-case" config)
  else issues.

Definition headingCase (n : node) (config : ruleConfig) : list diagnostic :=
  visit (ofType "heading") (headingCaseVisitor config) n [].

Definition minimumWordsVisitor (config : ruleConfig)
    (paragraphNode : node) (issues : list diagnostic) : list diagnostic :=
  let minWords := orDefault (arg_min (args config)) 10 in
  let text := extractText paragraphNode in
  let sentences := splitIntoSentences text in
  fold_left
    (fun issues sentence =>
       let wordCount := countWords sentence in
       if (0 <? wordCount) && (Z.of_nat wordCount <? minWords)%Z
       then push issues (issue paragraphNode "minimum-words-in-sentence" config)
       else issues)
    sentences issues.

Definition minimumWordsInSentence (n : node) (config : ruleConfig)
  : list diagnostic :=
  visit (ofType "paragraph") (minimumWordsVisitor config) n [].

Definition maxWordsVisitor (config : ruleConfig)
    (paragraphNode : node) (issues : list diagnostic) : list diagnostic :=
  let limit := orDefault (arg_limit (args config)) 25 in
  let text := extractText paragraphNode in
  let sentences := splitIntoSentences text in
  fold_left
    (fun issues sentence =>
       let wordCount := countWords sentence in
       if (limit <? Z.of_nat wordCount)%Z
       then push issues (issue paragraphNode "max-words-in-sentence" config)
       else issues)
    sentences issues.

Definition maxWordsInSentence (n : node) (config : ruleConfig)
  : list diagnostic :=
  visit (ofType "paragraph") (maxWordsVisitor config) n [].

Definition maxSentencesVisitor (config : ruleConfig)
    (paragraphNode : node) (issues : list diagnostic) : list diagnostic :=
  let limit := orDefault (arg_limit (args config)) 5 in
  let text := extractText paragraphNode in
  let sentences := splitIntoSentences text in
  if (limit <? Z.of_nat (List.length sentences))%Z
  then push issues (issue paragraphNode "max-sentences-in-paragraph" config)
  else issues.

Definition maxSentencesInParagraph (n : node) (config : ruleConfig)
  : list diagnostic :=
  visit (ofType "paragraph") (maxSentencesVisitor config) n [].

Definition bannedPhrasesVisitor (config : ruleConfig)
    (textNode : node) (issues : list diagnostic) : list diagnostic :=
  let phrases := orEmpty (arg_phrases (args config)) in
  let text := toLowerCase (extractText textNode) in
  fold_left
    (fun issues phrase =>
       if includes text (toLowerCase phrase)
       then push issues (issue textNode "banned-phrases" config)
       else issues)
    phrases issues.

Definition bannedPhrases (n : node) (config : ruleConfig) : list diagnostic :=
  visit (ofTypes ["paragraph"; "heading"]) (bannedPhrasesVisitor config) n [].

(* ------------------------------------------------------------------ *)
(** ** Calls that can throw *)

Inductive error : Type := TypeError.

Inductive outcome (A : Type) : Type :=
| Return (a : A)
| Throw (e : error).

Arguments Return {A} a.
Arguments Throw {A} e.

Definition bind {A B : Type} (c : outcome A) (k : A -> outcome B) : outcome B :=
  match c with
  | Return a => k a
  | Throw e => Throw e
  end.

Notation "x <- c ;; k" := (bind c (fun x => k))
  (at level 61, c at next level, right associativity).

(* ------------------------------------------------------------------ *)
(** ** The rule table *)

Definition evaluator : Type := node -> ruleConfig -> list diagnostic.

(** The own properties of the object literal [rules]. *)
Definition rules (ruleName : string) : option evaluator :=
  if String.eqb ruleName "headingCase" then Some headingCase
  else if String.eqb ruleName "minimumWordsInSentence"
       then Some minimumWordsInSentence
  else if String.eqb ruleName "maxWordsInSentence" then Some maxWordsInSentence
  else if String.eqb ruleName "maxSentencesInParagraph"
       then Some maxSentencesInParagraph
  else if String.eqb ruleName "bannedPhrases" then Some bannedPhrases
  else None.

(** [rules] is an object literal, so [rules[ruleName]] also finds what
    [Object.prototype] provides, and each of these is truthy.  The table
    gives, per name, what [...rules[ruleName](ast, ruleConfig)] then
    does: the call returns a string, which spreads into its characters,
    or the call or the spread throws a TypeError. *)
Definition objectPrototype : list (string * outcome string) :=
  [ (* Object(ast) is ast, an object that is not iterable *)
    ("constructor", Throw TypeError);
    (* both return false, which is not iterable *)
    ("hasOwnProperty", Throw TypeError);
    ("isPrototypeOf", Throw TypeError);
    ("propertyIsEnumerable", Throw TypeError);
    ("toLocaleString", Return "[object Object]");
    ("toString", Return "[object Object]");
    (* returns rules itself, not iterable *)
    ("valueOf", Throw TypeError);
    (* an object, not a function *)
    ("__proto__", Throw TypeError);
    (* the second argument, ruleConfig, is not callable *)
    ("__defineGetter__", Throw TypeError);
    ("__defineSetter__", Throw TypeError);
    (* both return undefined, not iterable *)
    ("__lookupGetter__", Throw TypeError);
    ("__lookupSetter__", Throw TypeError) ].

Fixpoint lookup {V : Type} (key : string) (table : list (string * V)) : option V :=
  match table with
  | [] => None
  | (k, v) :: table' => if String.eqb key k then Some v else lookup key table'
  end.

Definition inherited (ruleName : string) : option (outcome string) :=
  lookup ruleName objectPrototype.

(* ------------------------------------------------------------------ *)
(** ** lintFile *)

(** What [allIssues] can hold: the diagnostics of the evaluators, and the
    one-character strings a spread string leaves. *)
Inductive item : Type :=
| Issue (d : diagnostic)
| Chr (c : ascii).

(** [x.line]: undefined on a string. *)
Definition lineOf (x : item) : option nat :=
  match x with
  | Issue d => Some (line d)
  | Chr _ => None
  end.

(** [(a, b) => a.line - b.line].  With an undefined line the difference
    is NaN, which [sort] reads as +0. *)
Definition compareLines (a b : item) : Z :=
  match lineOf a, lineOf b with
  | Some x, Some y => (Z.of_nat x - Z.of_nat y)%Z
  | _, _ => 0%Z
  end.

Section Sort.
Variable A : Type.
Variable compare : A -> A -> Z.

Fixpoint insert (x : A) (sorted : list A) : list A :=
  match sorted with
  | [] => [x]
  | y :: ys =>
      if (compare x y <=? 0)%Z then x :: sorted else y :: insert x ys
  end.

(** [array.sort(compare)].  The source uses optional chaining, and on
    every engine that has it the sort is stable; so for a comparator that
    orders the elements consistently the result is determined: the
    elements in ascending order, equal ones in their former order.
    Inserting from the right, each element in front of its equals, builds
    that result.  When characters stand among diagnostics of several
    lines the comparator is not consistent and the language leaves the
    order to the engine; the properties below are about arrays on which
    the comparator is consistent. *)
Definition sort (l : list A) : list A := fold_right insert [] l.
End Sort.

(** [allIssues.push(...rules[ruleName](ast, ruleConfig))] under
    [if (rules[ruleName])], for each entry of [config.rules]. *)
Fixpoint runRules (ast : node) (entries : list (string * ruleConfig))
    (allIssues : list item) : outcome (list item) :=
  match entries with
  | [] => Return allIssues
  | (ruleName, ruleConfig) :: entries' =>
      match rules ruleName with
      | Some evaluate =>
          runRules ast entries'
            (allIssues ++ map Issue (evaluate ast ruleConfig))
      | None =>
          match inherited ruleName with
          | Some call =>
              s <- call ;;
              runRules ast entries'
                (allIssues ++ map Chr (list_ascii_of_string s))
          | None => runRules ast entries' allIssues
          end
      end
  end.

Definition lintFile (ast : node) (config : lintConfig) : outcome (list item) :=
  allIssues <- runRules ast (cfg_rules config) [] ;;
  Return (sort compareLines allIssues).

(* ------------------------------------------------------------------ *)
(** ** formatOutput *)

(** [path.basename(filePath)] on POSIX paths: the last component that is
    not empty, the empty string when there is none. *)
Fixpoint lastComponent (s last cur : string) : string :=
  match s with
  | EmptyString => if truthy cur then cur else last
  | String c s' =>
      if Ascii.eqb c "/"%char
      then lastComponent s' (if truthy cur then cur else last) EmptyString
      else lastComponent s' last (cur ++ String c EmptyString)%string
  end.

Definition basename (filePath : string) : string :=
  lastComponent filePath EmptyString EmptyString.

Definition showNumber (n : nat) : string :=
  NilZero.string_of_uint (Nat.to_uint n).

Definition newline : string := String (ascii_of_nat 10) EmptyString.

(** What [formatOutput] returns: a string, or the array it was given. *)
Inductive report : Type :=
| Text (s : string)
| Records (issues : list diagnostic).

Definition textLine (fileName : string) (i : diagnostic) : string :=
  (fileName ++ ":" ++ showNumber (line i) ++ ": " ++ message i
     ++ " [" ++ rule i ++ "] [" ++ severity i ++ "]")%string.

(** [formatOutput(filePath, issues, format)]; no path through it throws. *)
Definition formatOutput (filePath : string) (issues : list diagnostic)
    (format : string) : outcome report :=
  let fileName := basename filePath in
  if String.eqb format "text"
  then Return (Text (String.concat newline (map (textLine fileName) issues)))
  else Return (Records issues).

(** A value of a property of a diagnostic. *)
Inductive jsvalue : Type :=
| Num (n : nat)
| Str (s : string).

(** [Object.entries(issue)]: the properties of the object literal the
    evaluators build, which is what the JSON report writes per record. *)
Definition entries (i : diagnostic) : list (string * jsvalue) :=
  [ ("line", Num (line i)); ("rule", Str (rule i));
    ("severity", Str (severity i)); ("message", Str (message i)) ].

Definition hasField (name : string) (i : diagnostic) : bool :=
  existsb (fun e => String.eqb (fst e) name) (entries i).


(* ------------------------------------------------------------------ *)
(** ** Notions used to state the properties *)

Definition startsWith (p : ascii -> bool) (s : string) : bool :=
  match s with
  | EmptyString => false
  | String c _ => p c
  end.

Fixpoint endsWith (p : ascii -> bool) (s : string) : bool :=
  match s with
  | EmptyString => false
  | String c EmptyString => p c
  | String _ s' => endsWith p s'
  end.

Definition non (p : ascii -> bool) (c : ascii) : bool := negb (p c).

(** Splitting on runs, as a relation: the text is a piece without
    separators, or such a piece, a run of one or more separators, and a
    rest that does not prolong the run and is split in turn. *)
Inductive splitOn (sep : ascii -> bool) : string -> list string -> Prop :=
| splitOn_last piece :
    allChars (non sep) piece = true ->
    splitOn sep piece [piece]
| splitOn_run piece run rest pieces :
    allChars (non sep) piece = true ->
    run <> EmptyString ->
    allChars sep run = true ->
    startsWith sep rest = false ->
    splitOn sep rest pieces ->
    splitOn sep (piece ++ run ++ rest)%string (piece :: pieces).

(** [t] is [s] without its surrounding white space. *)
Definition trimmed (s t : string) : Prop :=
  exists before after,
    s = (before ++ t ++ after)%string /\
    allChars isSpace before = true /\ allChars isSpace after = true /\
    startsWith isSpace t = false /\ endsWith isSpace t = false.

(** The sentences of a text in the words of the specification: split on
    runs of terminators, trim every segment, drop the empty ones. *)
Definition sentencesOf (text : string) (sentences : list string) : Prop :=
  exists segments trimmedSegments,
    splitOn isTerminator text segments /\
    Forall2 trimmed segments trimmedSegments /\
    sentences = filter (fun s => negb (String.eqb s EmptyString)) trimmedSegments.

(** The first word has a first character and it is not upper case. *)
Definition firstWordNotUpper (words : list string) : bool :=
  match words with
  | String c _ :: _ => negb (Ascii.eqb c (upperChar c))
  | _ => false
  end.

(** The number of words from index 1 onward that start upper case. *)
Definition capitalizedAfterFirst (words : list string) : nat :=
  List.length (filter startsUpper (skipn 1 words)).

(** What one entry of [config.rules] contributes: the diagnostics of its
    evaluator, nothing when the name is not a rule. *)
Definition emitted (ast : node) (entry : string * ruleConfig) : list diagnostic :=
  match rules (fst entry) with
  | Some evaluate => evaluate ast (snd entry)
  | None => []
  end.

Definition onLine (l : nat) (d : diagnostic) : bool := line d =? l.

(** The comparator of [lintFile] on two diagnostics. *)
Definition lineDifference (a b : diagnostic) : Z :=
  (Z.of_nat (line a) - Z.of_nat (line b))%Z.

Definition byLine (a b : diagnostic) : Prop := line a <= line b.

(** A rule name that [rules[ruleName]] resolves to nothing at all. *)
Definition unresolved (ruleName : string) : bool :=
  match rules ruleName, inherited ruleName with
  | None, None => true
  | _, _ => false
  end.

(** A rule name of the catalog. *)
Definition inCatalog (ruleName : string) : bool :=
  match rules ruleName with Some _ => true | None => false end.

(** The phrase occurs in the text of the node, case aside. *)
Definition occursIn (n : node) (phrase : string) : bool :=
  includes (toLowerCase (extractText n)) (toLowerCase phrase).

Definition withMin (config : ruleConfig) (m : option Z) : ruleConfig :=
  {| level := level config; cfg_message := cfg_message config;
     args := {| arg_min := m; arg_limit := arg_limit (args config);
                arg_phrases := arg_phrases (args config) |} |}.

Definition withLimit (config : ruleConfig) (l : option Z) : ruleConfig :=
  {| level := level config; cfg_message := cfg_message config;
     args := {| arg_min := arg_min (args config); arg_limit := l;
                arg_phrases := arg_phrases (args config) |} |}.

Definition withPhrases (config : ruleConfig) (ps : list string) : ruleConfig :=
  {| level := level config; cfg_message := cfg_message config;
     args := {| arg_min := arg_min (args config);
                arg_limit := arg_limit (args config);
                arg_phrases := Some ps |} |}.

(** A paragraph or heading that holds one text node. *)
Definition paragraph (l : nat) (text : string) : node :=
  Node "paragraph" EmptyString (Some l) [Node "text" text (Some l) []].

Definition heading (l : nat) (text : string) : node :=
  Node "heading" EmptyString (Some l) [Node "text" text (Some l) []].

Definition root (cs : list node) : node := Node "root" EmptyString (Some 1) cs.

(* ------------------------------------------------------------------ *)
(** ** The command line *)

(** [issue.severity] on an element of [issues]: undefined on a string. *)
Definition severityOf (x : item) : option string :=
  match x with
  | Issue d => Some (severity d)
  | Chr _ => None
  end.

(** [issues.some(issue => issue.severity === 'error')] *)
Definition hasErrors (issues : list item) : bool :=
  existsb
    (fun x => match severityOf x with
              | Some s => String.eqb s "error"
              | None => false
              end)
    issues.

(** The argument of the last [process.exit]: [hasErrors ? 1 : 0]. *)
Definition exitCode (issues : list item) : nat :=
  if hasErrors issues then 1 else 0.

(** What [loadConfig] ends in: a configuration, or [process.exit(code)]. *)
Inductive loaded : Type :=
| Loaded (config : lintConfig)
| Exit (code : nat).

Section LoadConfig.
(** The file system as [loadConfig] sees it: [fs.existsSync], and
    [JSON.parse(fs.readFileSync(path, 'utf8'))], which is [None] when one
    of the two calls throws inside the [try]; [defaultConfigPath] is
    [path.join(process.cwd(), '.doclint.json')]. *)
Variable existsSync : string -> bool.
Variable readConfig : string -> option lintConfig.
Variable defaultConfigPath : string.

(** The body of both [try] blocks: the parsed file, or [process.exit(1)]
    from the [catch]. *)
Definition loadFrom (path : string) : loaded :=
  match readConfig path with
  | Some config => Loaded config
  | None => Exit 1
  end.

(** [loadConfig(configPath)]; [configPath] is [None] when the option is
    not given, and the empty string is falsy. *)
Definition loadConfig (configPath : option string) : loaded :=
  let fromDefaultPath :=
    if existsSync defaultConfigPath then loadFrom defaultConfigPath
    else Loaded defaultConfig in
  match configPath with
  | Some path =>
      if truthy path && existsSync path then loadFrom path
      else fromDefaultPath
  | None => fromDefaultPath
  end.
End LoadConfig.

(* ------------------------------------------------------------------ *)
(** ** More notions used to state the properties *)

(** All strings of a list, one after the other. *)
Definition joinAll (l : list string) : string :=
  fold_right String.append EmptyString l.

(** The values of the text nodes of a tree, in document order. *)
Definition textValues (n : node) : list string :=
  map nodeValue (filter (ofType "text") (preorder n)).

(** A camel-case name in kebab case: every upper-case letter becomes a
    hyphen and the lower-case letter. *)
Fixpoint kebab (s : string) : string :=
  match s with
  | EmptyString => EmptyString
  | String c s' =>
      if isUpper c then String "-"%char (String (lowerChar c) (kebab s'))
      else String c (kebab s')
  end.

Definition isBlank (s : string) : bool := allChars isSpace s.

Definition isNewline (c : ascii) : bool := Ascii.eqb c (ascii_of_nat 10).

Definition isBracket (c : ascii) : bool := Ascii.eqb c "["%char.

Definition isColon (c : ascii) : bool := Ascii.eqb c ":"%char.

Definition isDigit (c : ascii) : bool :=
  let n := nat_of_ascii c in (48 <=? n) && (n <=? 57).

(** The lines of a text: what stands between its newline characters. *)
Fixpoint linesOf (s : string) : list string :=
  match s with
  | EmptyString => [EmptyString]
  | String c s' =>
      if isNewline c then EmptyString :: linesOf s'
      else consHead c (linesOf s')
  end.

(** No field of the diagnostic holds a newline. *)
Definition oneLine (i : diagnostic) : bool :=
  allChars (non isNewline) (message i) && allChars (non isNewline) (rule i)
  && allChars (non isNewline) (severity i).

(** Neither the rule id nor the severity holds an opening bracket. *)
Definition plainTags (i : diagnostic) : bool :=
  allChars (non isBracket) (rule i) && allChars (non isBracket) (severity i).

(** The sentences of a paragraph with fewer words than [m], with more
    words than [m]. *)
Definition shortSentences (m : Z) (p : node) : list string :=
  filter (fun s => (Z.of_nat (countWords s) <? m)%Z)
    (splitIntoSentences (extractText p)).

Definition longSentences (m : Z) (p : node) : list string :=
  filter (fun s => (m <? Z.of_nat (countWords s))%Z)
    (splitIntoSentences (extractText p)).

(** The rule name makes [lintFile] throw. *)
Definition throwing (ruleName : string) : bool :=
  match rules ruleName, inherited ruleName with
  | None, Some (Throw _) => true
  | _, _ => false
  end.

(** An entry of the configuration that is a rule of the catalog at level
    error and reports something on the tree. *)
Definition failing (ast : node) (entry : string * ruleConfig) : bool :=
  String.eqb (level (snd entry)) "error"
  && negb (List.length (emitted ast entry) =? 0).

(* ================================================================== *)
(** * Properties *)

Unset Implicit Arguments.

(** ** The traversal *)

Section NodeInduction.
Variable P : node -> Prop.
Hypothesis step : forall t v l cs, Forall P cs -> P (Node t v l cs).

Fixpoint node_rect_nested (n : node) : P n :=
  match n with
  | Node t v l cs =>
      step t v l cs
        ((fix all (cs : list node) : Forall P cs :=
            match cs with
            | [] => Forall_nil P
            | c :: cs' => Forall_cons c (node_rect_nested c) (all cs')
            end) cs)
  end.
End NodeInduction.

Section VisitFacts.
Variable S : Type.
Variable test : node -> bool.
Variable visitor : node -> S -> S.

Let visitAll :=
  fix visitAll (cs : list node) (s : S) : S :=
    match cs with
    | [] => s
    | c :: cs' => visitAll cs' (visit test visitor c s)
    end.

Lemma visit_unfold t v l cs s :
  visit test visitor (Node t v l cs) s
  = visitAll cs
      (if test (Node t v l cs) then visitor (Node t v l cs) s else s).
Proof. reflexivity. Qed.

(** [visit] calls the visitor on the nodes of the preorder that pass
    the test, one after the other. *)
Lemma visit_preorder n :
  forall s,
    visit test visitor n s
    = fold_left (fun s m => visitor m s) (filter test (preorder n)) s.
Proof.
  induction n as [t v l cs IH] using node_rect_nested; intros s.
  rewrite visit_unfold.
  cbn [preorder filter].
  set (s0 := if test (Node t v l cs) then visitor (Node t v l cs) s else s).
  assert (E : fold_left (fun s m => visitor m s)
                (filter test (Node t v l cs :: flat_map preorder cs)) s
              = fold_left (fun s m => visitor m s)
                  (filter test (flat_map preorder cs)) s0).
  { cbn [filter]. subst s0. destruct (test (Node t v l cs)); reflexivity. }
  cbn [filter] in E |- *. rewrite E. clear E.
  generalize s0. clear s0 s.
  induction IH as [|c cs' Hc _ IHcs]; intros s0; cbn.
  - reflexivity.
  - rewrite filter_app, fold_left_app, <- Hc. apply IHcs.
Qed.
End VisitFacts.

Section PushingVisitor.
Variable A : Type.
Variable test : node -> bool.
Variable visitor : node -> list A -> list A.
Hypothesis appends : forall n acc, visitor n acc = acc ++ visitor n [].

(** A visitor that only pushes: the result is what it pushes for each
    visited node, in visiting order. *)
Lemma visit_pushes n acc :
  visit test visitor n acc
  = acc ++ flat_map (fun m => visitor m []) (filter test (preorder n)).
Proof.
  rewrite visit_preorder.
  generalize (filter test (preorder n)) as ms. intros ms. revert acc.
  induction ms as [|m ms IH]; intros acc; cbn.
  - now rewrite app_nil_r.
  - rewrite IH, appends, app_assoc. reflexivity.
Qed.
End PushingVisitor.

(** ** The evaluators push per visited node *)

Lemma fold_push (A : Type) (keep : A -> bool) (d : diagnostic) (l : list A) :
  forall acc,
    fold_left (fun issues x => if keep x then push issues d else issues) l acc
    = acc ++ map (fun _ => d) (filter keep l).
Proof.
  induction l as [|x l IH]; intros acc; cbn.
  - now rewrite app_nil_r.
  - rewrite IH. destruct (keep x); cbn; [|reflexivity].
    unfold push. now rewrite <- app_assoc.
Qed.

Lemma headingCaseVisitor_appends config n acc :
  headingCaseVisitor config n acc = acc ++ headingCaseVisitor config n [].
Proof.
  unfold headingCaseVisitor, push.
  destruct (negb (isSentenceCase (extractText n))); cbn;
    [reflexivity | now rewrite app_nil_r].
Qed.

Lemma minimumWordsVisitor_appends config n acc :
  minimumWordsVisitor config n acc = acc ++ minimumWordsVisitor config n [].
Proof. unfold minimumWordsVisitor. now rewrite !fold_push. Qed.

Lemma maxWordsVisitor_appends config n acc :
  maxWordsVisitor config n acc = acc ++ maxWordsVisitor config n [].
Proof. unfold maxWordsVisitor. now rewrite !fold_push. Qed.

Lemma maxSentencesVisitor_appends config n acc :
  maxSentencesVisitor config n acc = acc ++ maxSentencesVisitor config n [].
Proof.
  unfold maxSentencesVisitor, push.
  destruct (_ <? _)%Z; cbn; [reflexivity | now rewrite app_nil_r].
Qed.

Lemma bannedPhrasesVisitor_appends config n acc :
  bannedPhrasesVisitor config n acc = acc ++ bannedPhrasesVisitor config n [].
Proof. unfold bannedPhrasesVisitor. now rewrite !fold_push. Qed.


Lemma bannedPhrases_per_node tree config :
  bannedPhrases tree config
  = flat_map (fun n => bannedPhrasesVisitor config n [])
      (filter (ofTypes ["paragraph"; "heading"]) (preorder tree)).
Proof.
  unfold bannedPhrases.
  now rewrite (visit_pushes _ _ _ (bannedPhrasesVisitor_appends config)).
Qed.

Lemma bannedPhrasesVisitor_emits config n :
  bannedPhrasesVisitor config n []
  = map (fun _ => issue n "banned-phrases" config)
      (filter (occursIn n) (orEmpty (arg_phrases (args config)))).
Proof. unfold bannedPhrasesVisitor. now rewrite fold_push. Qed.

Lemma length_flat_map_sum (A B : Type) (f : A -> list B) (l : list A) :
  List.length (flat_map f l) = list_sum (map (fun x => List.length (f x)) l).
Proof.
  induction l as [|x l IH]; cbn; [reflexivity|].
  now rewrite length_app, IH.
Qed.

(* ------------------------------------------------------------------ *)
(** ** max-sentences-in-paragraph *)



(* ------------------------------------------------------------------ *)
(** ** Thresholds given as 0 *)

Lemma orDefault_zero d : orDefault (Some 0%Z) d = d.
Proof. reflexivity. Qed.

Lemma orDefault_absent d : orDefault None d = d.
Proof. reflexivity. Qed.

Lemma visit_ext (S : Type) test (f g : node -> S -> S) :
  (forall n s, f n s = g n s) ->
  forall n s, visit test f n s = visit test g n s.
Proof.
  intros E n s. rewrite !visit_preorder.
  generalize (filter test (preorder n)) as ms. intros ms. revert s.
  induction ms as [|m ms IH]; intros s; cbn; [reflexivity|].
  now rewrite E, IH.
Qed.

(** C8.  A threshold that is present but 0 is taken as missing:
    minimum-words-in-sentence with [min = 0] gives what it gives without
    [min] and with [min = 10]; max-words-in-sentence with [limit = 0]
    what it gives without [limit] and with [limit = 25];
    max-sentences-in-paragraph with [limit = 0] what it gives without
    [limit] and with [limit = 5]. *)
Theorem zero_threshold_is_default :
  forall (tree : node) (config : ruleConfig),
    (minimumWordsInSentence tree (withMin config (Some 0%Z))
       = minimumWordsInSentence tree (withMin config None) /\
     minimumWordsInSentence tree (withMin config (Some 0%Z))
       = minimumWordsInSentence tree (withMin config (Some 10%Z))) /\
    (maxWordsInSentence tree (withLimit config (Some 0%Z))
       = maxWordsInSentence tree (withLimit config None) /\
     maxWordsInSentence tree (withLimit config (Some 0%Z))
       = maxWordsInSentence tree (withLimit config (Some 25%Z))) /\
    (maxSentencesInParagraph tree (withLimit config (Some 0%Z))
       = maxSentencesInParagraph tree (withLimit config None) /\
     maxSentencesInParagraph tree (withLimit config (Some 0%Z))
       = maxSentencesInParagraph tree (withLimit config (Some 5%Z))).
Proof.
  intros tree config.
  unfold minimumWordsInSentence, maxWordsInSentence, maxSentencesInParagraph.
  repeat split; apply visit_ext; intros n s; reflexivity.
Qed.

(* ------------------------------------------------------------------ *)
(** ** banned-phrases *)

Lemma nodup_filter_fixed (keep : string -> bool) (l : list string) :
  NoDup l -> nodup string_dec (filter keep l) = filter keep l.
Proof.
  intros H. apply nodup_fixed_point. now apply NoDup_filter.
Qed.

(** C9, as stated, fails: a phrase listed twice is reported twice for a
    node that contains it, so the number of diagnostics is not the number
    of distinct phrases that occur. *)
Lemma bannedPhrases_distinct_counterexample :
  ~ (forall (config : ruleConfig) (n : node),
        ofTypes ["paragraph"; "heading"] n = true ->
        List.length (bannedPhrasesVisitor config n [])
        = List.length
            (nodup string_dec
               (filter (occursIn n) (orEmpty (arg_phrases (args config)))))).
Proof.
  intros claim.
  specialize (claim
    (mkRuleConfig "error" "Banned phrase identified."
       (mkArgs None None (Some ["has been"; "has been"])))
    (paragraph 3 "This feature has been deprecated.")
    eq_refl).
  vm_compute in claim. discriminate claim.
Qed.

(** C9, amended.  For a visited node the banned-phrases evaluator pushes
    one diagnostic per entry of the phrase list that occurs in the node's
    text (case aside), however often it occurs there: the number of
    diagnostics for the node is the number of entries that occur, an entry
    listed twice counting twice; one configured phrase gives at most one
    diagnostic; when the listed phrases are pairwise distinct the number
    is that of the distinct phrases that occur.  Over a tree the evaluator
    pushes this for each paragraph and heading in visiting order. *)
Theorem bannedPhrases_one_per_entry :
  forall (config : ruleConfig) (n : node),
    let phrases := orEmpty (arg_phrases (args config)) in
    bannedPhrasesVisitor config n []
      = map (fun _ => issue n "banned-phrases" config)
          (filter (occursIn n) phrases) /\
    List.length (bannedPhrasesVisitor config n [])
      = List.length (filter (occursIn n) phrases) /\
    (forall phrase,
        List.length (bannedPhrasesVisitor (withPhrases config [phrase]) n [])
        = if occursIn n phrase then 1 else 0) /\
    (NoDup phrases ->
     List.length (bannedPhrasesVisitor config n [])
       = List.length (nodup string_dec (filter (occursIn n) phrases))) /\
    (forall tree,
        bannedPhrases tree config
        = flat_map (fun m => bannedPhrasesVisitor config m [])
            (filter (ofTypes ["paragraph"; "heading"]) (preorder tree))).
Proof.
  intros config n phrases.
  assert (E := bannedPhrasesVisitor_emits config n). fold phrases in E.
  repeat split.
  - exact E.
  - now rewrite E, length_map.
  - intros phrase. rewrite bannedPhrasesVisitor_emits. cbn.
    destruct (occursIn n phrase); reflexivity.
  - intros Hnd. rewrite E, length_map.
    now rewrite nodup_filter_fixed.
  - intros tree. apply bannedPhrases_per_node.
Qed.

Lemma bannedPhrases_one_per_entry_witness :
  List.length
    (bannedPhrasesVisitor
       (mkRuleConfig "error" "Banned phrase identified."
          (mkArgs None None (Some ["has been"; "are used to"])))
       (paragraph 3 "It has been said that it has been done.") [])
  = 1.
Proof.
  refine (eq_trans
    (proj1 (proj2 (proj2 (proj2
      (bannedPhrases_one_per_entry
         (mkRuleConfig "error" "Banned phrase identified."
            (mkArgs None None (Some ["has been"; "are used to"])))
         (paragraph 3 "It has been said that it has been done.")))))
      _) _).
  - cbn. repeat constructor; cbn; intuition discriminate.
  - vm_compute. reflexivity.
Defined.

(* ------------------------------------------------------------------ *)
(** ** formatOutput *)

Lemma formatOutput_returns filePath issues fmt :
  exists r, formatOutput filePath issues fmt = Return r.
Proof.
  unfold formatOutput. destruct (String.eqb fmt "text"); eauto.
Qed.

(** C2, as stated, fails: a format that is neither text nor json is not
    an error at format time. *)
Lemma unknown_format_counterexample :
  ~ (forall (filePath : string) (issues : list diagnostic) (fmt : string),
        fmt <> "text" -> fmt <> "json" ->
        exists e, formatOutput filePath issues fmt = Throw e).
Proof.
  intros claim.
  destruct (claim "docs/file.md" [] "xml") as [e He];
    try (intro; discriminate).
  vm_compute in He. discriminate He.
Qed.

(** C2, amended.  A format other than text, json or unknown alike, is no
    error: [formatOutput] returns the diagnostic sequence it was given,
    unchanged and in the same order; no format makes it throw. *)
Theorem format_other_than_text :
  forall (filePath : string) (issues : list diagnostic) (fmt : string),
    fmt <> "text" ->
    formatOutput filePath issues fmt = Return (Records issues) /\
    formatOutput filePath issues fmt = formatOutput filePath issues "json" /\
    (forall fmt' e, formatOutput filePath issues fmt' <> Throw e).
Proof.
  intros filePath issues fmt Hfmt.
  apply String.eqb_neq in Hfmt.
  unfold formatOutput. rewrite Hfmt. cbn.
  repeat split.
  intros fmt' e. destruct (String.eqb fmt' "text"); discriminate.
Qed.

Lemma format_other_than_text_witness :
  formatOutput "docs/file.md"
    [mkDiagnostic 12 "heading-case" "warning" "Heading should be in sentence case."]
    "xml"
  = Return (Records
      [mkDiagnostic 12 "heading-case" "warning" "Heading should be in sentence case."]).
Proof.
  refine (proj1 (format_other_than_text "docs/file.md"
    [mkDiagnostic 12 "heading-case" "warning" "Heading should be in sentence case."]
    "xml" _)).
  intro H; discriminate H.
Defined.

(** C3, on the code.  With the json format [formatOutput] returns the
    diagnostics as one flat array, each with line, rule, severity and
    message, but no record has a file field, while every line of the text
    format starts with the file name. *)
Theorem json_records_lack_file :
  forall (filePath : string) (issues : list diagnostic),
    formatOutput filePath issues "json" = Return (Records issues) /\
    (forall i, map fst (entries i) = ["line"; "rule"; "severity"; "message"]) /\
    (forall i, hasField "file" i = false) /\
    (forall i, prefix (basename filePath ++ ":") (textLine (basename filePath) i)
               = true).
Proof.
  intros filePath issues. repeat split.
  intros i. unfold textLine.
  generalize (showNumber (line i) ++ ": " ++ message i ++ " [" ++ rule i
                ++ "] [" ++ severity i ++ "]")%string as rest.
  intros rest.
  induction (basename filePath) as [|c s IH]; cbn.
  - now destruct rest.
  - destruct (ascii_dec c c) as [_|N]; [exact IH | now destruct N].
Qed.

(* ------------------------------------------------------------------ *)
(** ** The sort of lintFile *)

Section SortFacts.
Variable A : Type.
Variable compare : A -> A -> Z.

Lemma insert_perm x l : Permutation (x :: l) (insert compare x l).
Proof.
  induction l as [|y ys IH]; cbn; [reflexivity|].
  destruct (compare x y <=? 0)%Z; [reflexivity|].
  rewrite perm_swap. now apply perm_skip.
Qed.

Lemma sort_perm l : Permutation l (sort compare l).
Proof.
  induction l as [|x l IH]; cbn; [constructor|].
  rewrite <- insert_perm. now apply perm_skip.
Qed.

Variable B : Type.
Variable compareB : B -> B -> Z.
Variable f : A -> B.
Hypothesis agrees : forall a b, compareB (f a) (f b) = compare a b.

Lemma insert_map x l :
  insert compareB (f x) (map f l) = map f (insert compare x l).
Proof.
  induction l as [|y ys IH]; cbn; [reflexivity|].
  rewrite agrees. destruct (compare x y <=? 0)%Z; cbn; [reflexivity|].
  now rewrite IH.
Qed.

Lemma sort_map l : sort compareB (map f l) = map f (sort compare l).
Proof.
  induction l as [|x l IH]; [reflexivity|].
  cbn [map sort fold_right].
  change (fold_right (insert compareB) [] (map f l))
    with (sort compareB (map f l)).
  rewrite IH. apply insert_map.
Qed.
End SortFacts.

Lemma insert_sorted x l :
  StronglySorted byLine l -> StronglySorted byLine (insert lineDifference x l).
Proof.
  induction 1 as [|y ys Hs IH Hall]; cbn.
  - repeat constructor.
  - unfold lineDifference at 1.
    destruct (Z.leb_spec (Z.of_nat (line x) - Z.of_nat (line y)) 0) as [Hle|Hgt].
    + constructor; [now constructor|].
      constructor; [unfold byLine; lia|].
      eapply Forall_impl; [|exact Hall]. unfold byLine. intros; lia.
    + constructor; [exact IH|].
      eapply Permutation_Forall; [apply insert_perm|].
      constructor; [unfold byLine; lia | exact Hall].
Qed.

Lemma sort_sorted l : StronglySorted byLine (sort lineDifference l).
Proof.
  induction l as [|x l IH]; cbn; [constructor | now apply insert_sorted].
Qed.

(** Inserting [x] leaves the diagnostics of every line in their order,
    [x] in front of those of its own line. *)
Lemma insert_stable n x l :
  StronglySorted byLine l ->
  filter (onLine n) (insert lineDifference x l)
  = filter (onLine n) (x :: l).
Proof.
  induction 1 as [|y ys Hs IH Hall]; [reflexivity|].
  cbn [insert]. unfold lineDifference at 1.
  destruct (Z.leb_spec (Z.of_nat (line x) - Z.of_nat (line y)) 0) as [Hle|Hgt];
    [reflexivity|].
  cbn [filter] in IH |- *. rewrite IH.
  unfold onLine.
  destruct (Nat.eqb_spec (line x) n) as [Ex|Nx];
    destruct (Nat.eqb_spec (line y) n) as [Ey|Ny]; try reflexivity.
  lia.
Qed.

Lemma sort_stable n l :
  filter (onLine n) (sort lineDifference l) = filter (onLine n) l.
Proof.
  induction l as [|x l IH]; [reflexivity|].
  cbn [sort fold_right]. fold (sort lineDifference l).
  rewrite insert_stable by apply sort_sorted.
  cbn [filter]. now rewrite IH.
Qed.

Lemma filter_flat_map (A B : Type) (p : B -> bool) (f : A -> list B) l :
  filter p (flat_map f l) = flat_map (fun x => filter p (f x)) l.
Proof.
  induction l as [|x l IH]; cbn; [reflexivity|].
  now rewrite filter_app, IH.
Qed.

Lemma map_Issue_inj l1 l2 : map Issue l1 = map Issue l2 -> l1 = l2.
Proof.
  revert l2. induction l1 as [|a l1 IH]; intros [|b l2] H;
    try discriminate; [reflexivity|].
  cbn in H. injection H as Hab Hl. subst. f_equal. now apply IH.
Qed.

Lemma sort_issues l :
  sort compareLines (map Issue l) = map Issue (sort lineDifference l).
Proof. apply sort_map. reflexivity. Qed.

(* ------------------------------------------------------------------ *)
(** ** lintFile *)

Arguments rules : simpl never.
Arguments inherited : simpl never.

Lemma runRules_app ast l1 l2 :
  forall acc,
    runRules ast (l1 ++ l2) acc
    = (all <- runRules ast l1 acc ;; runRules ast l2 all).
Proof.
  induction l1 as [|[name rc] l1 IH]; intros acc; cbn; [reflexivity|].
  destruct (rules name) as [ev|]; [apply IH|].
  destruct (inherited name) as [[s|e]|]; cbn; [apply IH | reflexivity | apply IH].
Qed.

(** What was pushed stays in front. *)
Lemma runRules_extends ast entries :
  forall acc all,
    runRules ast entries acc = Return all -> exists more, all = acc ++ more.
Proof.
  induction entries as [|[name rc] entries IH]; intros acc all H; cbn in H.
  - injection H as <-. exists []. now rewrite app_nil_r.
  - destruct (rules name) as [ev|].
    + apply IH in H as [more ->]. rewrite <- app_assoc. eauto.
    + destruct (inherited name) as [[s|e]|]; cbn in H; try discriminate.
      * apply IH in H as [more ->]. rewrite <- app_assoc. eauto.
      * now apply IH.
Qed.

(** When only diagnostics come back, they are what the evaluators of the
    entries gave, entry after entry. *)
Lemma runRules_diagnostics ast entries :
  forall acc ds,
    runRules ast entries acc = Return (map Issue ds) ->
    map Issue ds = acc ++ map Issue (flat_map (emitted ast) entries).
Proof.
  induction entries as [|[name rc] entries IH]; intros acc ds H; cbn in H.
  - injection H as <-. cbn. now rewrite app_nil_r.
  - cbn [flat_map]. unfold emitted at 1. cbn [fst snd].
    destruct (rules name) as [ev|].
    + apply IH in H. rewrite H, map_app, app_assoc. reflexivity.
    + destruct (inherited name) as [[s|e]|]; cbn in H; try discriminate.
      * destruct (list_ascii_of_string s) as [|c cs] eqn:Es.
        -- cbn in H. rewrite app_nil_r in H. now apply IH.
        -- exfalso. apply runRules_extends in H as [more H].
           assert (I : In (Chr c) (map Issue ds)).
           { rewrite H. cbn. rewrite !in_app_iff. left. right. now left. }
           apply in_map_iff in I as [d [Hd _]]. discriminate Hd.
      * now apply IH.
Qed.

Lemma runRules_returns ast entries :
  (forall name rc, In (name, rc) entries ->
                   inCatalog name || unresolved name = true) ->
  forall acc,
    runRules ast (entries) (map Issue acc)
    = Return (map Issue (acc ++ flat_map (emitted ast) entries)).
Proof.
  induction entries as [|[name rc] entries IH]; intros Hnames acc; cbn.
  - now rewrite app_nil_r.
  - assert (Hn := Hnames name rc (or_introl eq_refl)).
    assert (Hrest : forall name rc, In (name, rc) entries ->
                                    inCatalog name || unresolved name = true)
      by (intros; eapply Hnames; right; eassumption).
    unfold emitted at 1. cbn [fst snd].
    unfold inCatalog, unresolved in Hn.
    destruct (rules name) as [ev|].
    + rewrite <- map_app, IH by exact Hrest. now rewrite <- app_assoc.
    + destruct (inherited name); [discriminate Hn|]. now apply IH.
Qed.

(** Whatever the tree, a configuration of the documented shape whose rule
    names are catalog names or resolve to nothing makes [lintFile] return
    diagnostics. *)
Lemma lintFile_returns ast config :
  (forall name rc, In (name, rc) (cfg_rules config) ->
                   inCatalog name || unresolved name = true) ->
  lintFile ast config
  = Return (map Issue
      (sort lineDifference (flat_map (emitted ast) (cfg_rules config)))).
Proof.
  intros Hnames. unfold lintFile.
  change (@nil item) with (map Issue []).
  rewrite (runRules_returns ast _ Hnames []). cbn [bind app].
  now rewrite sort_issues.
Qed.

(** When [lintFile] returns diagnostics, they are the diagnostics of the
    configured evaluators, sorted. *)
Lemma lintFile_diagnostics ast config ds :
  lintFile ast config = Return (map Issue ds) ->
  ds = sort lineDifference (flat_map (emitted ast) (cfg_rules config)).
Proof.
  intros H. unfold lintFile in H.
  destruct (runRules ast (cfg_rules config) []) as [all|e] eqn:Hrun;
    cbn in H; [|discriminate].
  injection H as H.
  assert (Hall : exists ds0, all = map Issue ds0).
  { assert (P := sort_perm _ compareLines all). rewrite H in P.
    clear - P. apply Permutation_sym in P.
    remember (map Issue ds) as l eqn:El. revert ds El.
    induction P; intros ds El.
    - now exists [].
    - destruct ds as [|d ds]; [discriminate|]. injection El as -> El.
      destruct (IHP ds El) as [ds0 ->]. now exists (d :: ds0).
    - destruct ds as [|d [|d' ds]]; try discriminate.
      injection El as -> -> ->. now exists (d' :: d :: ds).
    - destruct (IHP1 ds El) as [ds1 E1].
      destruct (IHP2 ds1 E1) as [ds2 E2]. now exists ds2. }
  destruct Hall as [ds0 ->].
  apply runRules_diagnostics in Hrun. cbn in Hrun.
  apply map_Issue_inj in Hrun. subst ds0.
  rewrite sort_issues in H. now apply map_Issue_inj in H.
Qed.

(** When [lintFile] returns diagnostics and nothing else, the sequence
    is sorted by line, ascending; it holds the diagnostics the evaluators
    of the configured rules emitted, each once; and for every line the
    diagnostics of that line stand in the order of the rules in the
    configuration (and, for one rule, in the order it emitted them): on
    diagnostics the sort is stable. *)
Lemma lintFile_sorted_stable :
  forall (ast : node) (config : lintConfig) (ds : list diagnostic),
    lintFile ast config = Return (map Issue ds) ->
    StronglySorted byLine ds /\
    Permutation (flat_map (emitted ast) (cfg_rules config)) ds /\
    (forall l,
        filter (onLine l) ds
        = flat_map (fun entry => filter (onLine l) (emitted ast entry))
            (cfg_rules config)).
Proof.
  intros ast config ds H. apply lintFile_diagnostics in H. subst ds.
  split; [apply sort_sorted|]. split; [apply sort_perm|].
  intros l. now rewrite sort_stable, filter_flat_map.
Qed.

Lemma lintFile_sorted_stable_witness :
  let ast := root [heading 3 "the Quick fix"; paragraph 1 "This has been done."] in
  let ds :=
    [ mkDiagnostic 1 "minimum-words-in-sentence" "warning"
        "Sentence may contain too few words";
      mkDiagnostic 1 "banned-phrases" "error" "Banned phrase identified.";
      mkDiagnostic 3 "heading-case" "warning"
        "Heading should be in sentence case." ] in
  lintFile ast defaultConfig = Return (map Issue ds) /\
  StronglySorted byLine ds /\
  filter (onLine 1) ds
  = flat_map (fun entry => filter (onLine 1) (emitted ast entry))
      (cfg_rules defaultConfig).
Proof.
  intros ast ds.
  assert (H : lintFile ast defaultConfig = Return (map Issue ds))
    by (vm_compute; reflexivity).
  split; [exact H|].
  split.
  - exact (proj1 (lintFile_sorted_stable ast defaultConfig ds H)).
  - exact (proj2 (proj2 (lintFile_sorted_stable ast defaultConfig ds H)) 1).
Defined.

(** Two diagnostics of one line that come from different entries of the
    configuration stand in the order of the entries. *)
Lemma lintFile_ties_in_config_order ast before entry1 between entry2 after fmt ds l :
  lintFile ast (mkConfig (before ++ entry1 :: between ++ entry2 :: after) fmt)
  = Return (map Issue ds) ->
  exists front middle back,
    filter (onLine l) ds
    = front ++ filter (onLine l) (emitted ast entry1) ++ middle
        ++ filter (onLine l) (emitted ast entry2) ++ back.
Proof.
  intros H. apply lintFile_diagnostics in H. subst ds.
  rewrite sort_stable, filter_flat_map. cbn [cfg_rules].
  rewrite flat_map_app. cbn [flat_map]. rewrite flat_map_app. cbn [flat_map].
  eauto.
Qed.

(** A rule name that resolves to nothing in the rule table is skipped:
    the result is that of the configuration without the entry. *)
Lemma unresolved_rule_skipped ast before name rc after fmt :
  unresolved name = true ->
  lintFile ast (mkConfig (before ++ (name, rc) :: after) fmt)
  = lintFile ast (mkConfig (before ++ after) fmt).
Proof.
  intros Hn. unfold lintFile. cbn [cfg_rules].
  rewrite !runRules_app.
  destruct (runRules ast before []) as [all|e]; cbn [bind]; [|reflexivity].
  cbn [runRules]. unfold unresolved in Hn.
  destruct (rules name); [discriminate|].
  destruct (inherited name); [discriminate|]. reflexivity.
Qed.

Lemma unresolved_example : unresolved "spellCheck" = true.
Proof. reflexivity. Qed.

(** C7, on the code.  A rule name that is not in the catalog but is a
    property every object inherits is not skipped: with [constructor] as
    the one configured rule, [lintFile] throws a TypeError on every tree,
    while the configuration without the entry gives the empty sequence;
    with [toString] it returns the fifteen characters of a string, none of
    them a diagnostic. *)
Theorem inherited_rule_name_not_skipped :
  forall (ast : node) (rc : ruleConfig) (fmt : string),
    inCatalog "constructor" = false /\
    lintFile ast (mkConfig [("constructor", rc)] fmt) = Throw TypeError /\
    lintFile ast (mkConfig [] fmt) = Return [] /\
    inCatalog "toString" = false /\
    lintFile ast (mkConfig [("toString", rc)] fmt)
    = Return (map Chr (list_ascii_of_string "[object Object]")).
Proof.
  intros ast rc fmt. repeat split.
Qed.

(** C1, on the code.  The rule name [toString] is not in the catalog, yet
    it passes the guard of [lintFile] and leaves fifteen characters in
    [allIssues].  A character has no line, so every comparison with one is
    NaN, which the sort reads as equal, and the diagnostics on either side
    of the characters are never put in order: with the rules
    banned-phrases, [toString], heading-case on a heading at line 1 and a
    paragraph at line 3, [lintFile] returns the diagnostic of line 3, the
    fifteen characters and then the diagnostic of line 1.  What it returns
    is not a sequence of diagnostics, and its diagnostics are not sorted
    by line. *)
Theorem lintFile_unsorted_after_inherited_name :
  forall fmt : string,
    let ast :=
      root [heading 1 "the quick fix"; paragraph 3 "This has been done."] in
    let config :=
      mkConfig
        [ ("bannedPhrases",
            mkRuleConfig "error" "Banned phrase identified."
              (mkArgs None None (Some ["has been"])));
          ("toString",
            mkRuleConfig "error" "Not a rule." (mkArgs None None None));
          ("headingCase",
            mkRuleConfig "warning" "Heading should be in sentence case."
              (mkArgs None None None)) ]
        fmt in
    let banned :=
      mkDiagnostic 3 "banned-phrases" "error" "Banned phrase identified." in
    let cased :=
      mkDiagnostic 1 "heading-case" "warning"
        "Heading should be in sentence case." in
    inCatalog "toString" = false /\
    lintFile ast config
    = Return (Issue banned
              :: map Chr (list_ascii_of_string "[object Object]")
              ++ [Issue cased]) /\
    line cased < line banned /\
    (forall ds, lintFile ast config <> Return (map Issue ds)) /\
    (forall items ds,
        lintFile ast config = Return items ->
        ds = flat_map (fun x => match x with Issue d => [d] | Chr _ => [] end)
               items ->
        ~ StronglySorted byLine ds).
Proof.
  intros fmt ast config banned cased.
  assert (E : lintFile ast config
              = Return (Issue banned
                        :: map Chr (list_ascii_of_string "[object Object]")
                        ++ [Issue cased]))
    by reflexivity.
  split; [reflexivity|]. split; [exact E|]. split; [cbn; lia|]. split.
  - intros ds H. rewrite E in H. injection H as H.
    destruct ds as [|d [|d' ds]]; discriminate H.
  - intros items ds H ->. rewrite E in H. injection H as <-.
    cbn. intros S. inversion S as [|? ? _ F]; subst.
    inversion F as [|? ? Hle _]; subst. unfold byLine in Hle. cbn in Hle. lia.
Qed.

(* ------------------------------------------------------------------ *)
(** ** Splitting and trimming *)

Lemma append_assoc (a b c : string) : ((a ++ b) ++ c = a ++ (b ++ c))%string.
Proof. induction a as [|x a IH]; cbn; [reflexivity | now rewrite IH]. Qed.

Lemma append_empty_r (a : string) : (a ++ EmptyString)%string = a.
Proof. induction a as [|x a IH]; cbn; [reflexivity | now rewrite IH]. Qed.

Section Runs.
Variable sep : ascii -> bool.

Lemma take_drop s : (takeWhile sep s ++ dropWhile sep s)%string = s.
Proof.
  induction s as [|c s IH]; cbn; [reflexivity|].
  destruct (sep c); cbn; [now rewrite IH | reflexivity].
Qed.

Lemma takeWhile_all s : allChars sep (takeWhile sep s) = true.
Proof.
  induction s as [|c s IH]; cbn; [reflexivity|].
  destruct (sep c) eqn:E; cbn; [now rewrite E | reflexivity].
Qed.

Lemma dropWhile_start s : startsWith sep (dropWhile sep s) = false.
Proof.
  induction s as [|c s IH]; cbn; [reflexivity|].
  destruct (sep c) eqn:E; cbn; [exact IH | exact E].
Qed.

Lemma dropWhile_run run rest :
  allChars sep run = true -> startsWith sep rest = false ->
  dropWhile sep (run ++ rest) = rest.
Proof.
  intros Hrun Hrest. induction run as [|c run IH]; cbn in *.
  - destruct rest as [|c rest]; cbn in *; [reflexivity | now rewrite Hrest].
  - apply andb_true_iff in Hrun as [Hc Hrun]. rewrite Hc. now apply IH.
Qed.

Lemma afterRun_dropWhile s : afterRun sep s = splitRuns sep (dropWhile sep s).
Proof.
  induction s as [|c s IH]; cbn; [reflexivity|].
  destruct (sep c) eqn:E; cbn; [exact IH | now rewrite E].
Qed.

Lemma splitOn_cons c s pieces :
  sep c = false -> splitOn sep s pieces ->
  splitOn sep (String c s) (consHead c pieces).
Proof.
  intros Hc H. destruct H as [piece Hp | piece run rest pieces Hp Hne Hrun Hrest H].
  - cbn. apply splitOn_last. cbn. unfold non at 1. now rewrite Hc.
  - cbn. change (String c (piece ++ run ++ rest))%string
      with (String c piece ++ run ++ rest)%string.
    apply splitOn_run; auto. cbn. unfold non at 1. now rewrite Hc.
Qed.

(** [splitRuns] splits on runs. *)
Lemma splitRuns_splitOn s :
  splitOn sep s (splitRuns sep s) /\
  (forall run, run <> EmptyString -> allChars sep run = true ->
               splitOn sep (run ++ s) (EmptyString :: afterRun sep s)).
Proof.
  induction s as [|c s [IHs IHr]].
  - split; [now apply splitOn_last|].
    intros run Hne Hrun. cbn [afterRun].
    apply (@splitOn_run sep EmptyString run EmptyString [EmptyString]); auto.
    now apply splitOn_last.
  - assert (P : splitOn sep (String c s) (splitRuns sep (String c s))).
    { cbn [splitRuns]. destruct (sep c) eqn:E.
      - apply (IHr (String c EmptyString)); [discriminate|]. cbn. now rewrite E.
      - now apply splitOn_cons. }
    split; [exact P|].
    intros run Hne Hrun. cbn [afterRun]. destruct (sep c) eqn:E.
    + replace (run ++ String c s)%string
        with ((run ++ String c EmptyString) ++ s)%string
        by (now rewrite append_assoc).
      apply IHr.
      * destruct run; discriminate.
      * clear - Hrun E. induction run as [|x run IH]; cbn in *.
        -- now rewrite E.
        -- apply andb_true_iff in Hrun as [Hx Hrun]. rewrite Hx. now apply IH.
    + cbn [splitRuns] in P. rewrite E in P.
      now apply (@splitOn_run sep EmptyString run (String c s)).
Qed.

Lemma splitRuns_piece piece :
  allChars (non sep) piece = true -> splitRuns sep piece = [piece].
Proof.
  induction piece as [|c piece IH]; cbn; [reflexivity|].
  unfold non at 1. destruct (sep c); cbn; [discriminate|].
  intros H. now rewrite IH.
Qed.

Lemma splitRuns_prefix piece s :
  allChars (non sep) piece = true ->
  splitRuns sep (piece ++ s)
  = match splitRuns sep s with
    | p :: ps => (piece ++ p)%string :: ps
    | [] => [piece]
    end.
Proof.
  induction piece as [|c piece IH]; cbn.
  - intros _. destruct s as [|c s]; cbn; [reflexivity|].
    destruct (sep c); [reflexivity|]. now destruct (splitRuns sep s).
  - unfold non at 1. destruct (sep c); cbn; [discriminate|].
    intros H. rewrite (IH H). now destruct (splitRuns sep s).
Qed.

(** The relation has one solution, the pieces [splitRuns] returns. *)
Lemma splitOn_splitRuns s pieces :
  splitOn sep s pieces <-> pieces = splitRuns sep s.
Proof.
  split.
  - induction 1 as [piece Hp | piece run rest pieces Hp Hne Hrun Hrest H IH].
    + symmetry. now apply splitRuns_piece.
    + rewrite splitRuns_prefix by exact Hp.
      destruct run as [|c run]; [contradiction|].
      cbn in Hrun. apply andb_true_iff in Hrun as [Hc Hrun].
      cbn [append splitRuns]. rewrite Hc.
      rewrite afterRun_dropWhile, dropWhile_run by assumption.
      now rewrite append_empty_r, IH.
  - intros ->. apply splitRuns_splitOn.
Qed.
End Runs.

Lemma allChars_app p a b :
  allChars p (a ++ b) = allChars p a && allChars p b.
Proof.
  induction a as [|c a IH]; cbn; [reflexivity|].
  now rewrite IH, andb_assoc.
Qed.

Lemma dropWhile_all p s : allChars p s = true -> dropWhile p s = EmptyString.
Proof.
  induction s as [|c s IH]; cbn; [reflexivity|].
  destruct (p c); cbn; [exact IH | discriminate].
Qed.

Lemma allChars_dropWhile p q s :
  allChars p s = true -> allChars p (dropWhile q s) = true.
Proof.
  induction s as [|c s IH]; cbn; [reflexivity|].
  intros H. destruct (q c); [|exact H].
  apply andb_true_iff in H as [_ H]. now apply IH.
Qed.

Lemma trimEnd_cons c s :
  trimEnd (String c s)
  = match trimEnd s with
    | EmptyString => if isSpace c then EmptyString else String c EmptyString
    | t => String c t
    end.
Proof. reflexivity. Qed.

Lemma allChars_trimEnd p s :
  allChars p s = true -> allChars p (trimEnd s) = true.
Proof.
  induction s as [|c s IH]; [reflexivity|].
  intros H. cbn in H. apply andb_true_iff in H as [Hc H].
  rewrite trimEnd_cons. specialize (IH H).
  destruct (trimEnd s) as [|x t].
  - destruct (isSpace c); cbn; [reflexivity | now rewrite Hc].
  - cbn in IH |- *. now rewrite Hc, IH.
Qed.

Lemma trimEnd_split s :
  exists after,
    s = (trimEnd s ++ after)%string /\ allChars isSpace after = true.
Proof.
  induction s as [|c s [after [Es Ha]]]; [now exists EmptyString|].
  rewrite trimEnd_cons. destruct (trimEnd s) as [|x t].
  - cbn in Es. subst after. destruct (isSpace c) eqn:E.
    + exists (String c s). cbn. now rewrite E, Ha.
    + exists s. now cbn.
  - exists after. cbn in Es |- *. now rewrite <- Es.
Qed.

Lemma trimEnd_end s : endsWith isSpace (trimEnd s) = false.
Proof.
  induction s as [|c s IH]; [reflexivity|].
  rewrite trimEnd_cons. destruct (trimEnd s) as [|x t].
  - destruct (isSpace c) eqn:E; cbn; [reflexivity | exact E].
  - exact IH.
Qed.

Lemma trimEnd_start p s :
  startsWith p s = false -> startsWith p (trimEnd s) = false.
Proof.
  destruct s as [|c s]; [reflexivity|].
  rewrite trimEnd_cons. cbn. intros H.
  destruct (trimEnd s); [destruct (isSpace c)|]; cbn; auto.
Qed.

Lemma trimEnd_core t after :
  endsWith isSpace t = false -> allChars isSpace after = true ->
  trimEnd (t ++ after) = t.
Proof.
  intros Ht Ha. induction t as [|c t IH].
  - cbn. clear Ht. induction after as [|x a IH]; [reflexivity|].
    cbn in Ha. apply andb_true_iff in Ha as [Hx Ha].
    rewrite trimEnd_cons, (IH Ha). now rewrite Hx.
  - cbn [append]. rewrite trimEnd_cons. destruct t as [|c' t].
    + rewrite (IH eq_refl). cbn in Ht. now rewrite Ht.
    + rewrite (IH Ht). reflexivity.
Qed.

(** [trim] is the one way to take the surrounding white space off. *)
Lemma trimmed_trim s t : trimmed s t <-> t = trim s.
Proof.
  unfold trim. split.
  - intros (before & after & -> & Hb & Ha & Hs & He).
    destruct t as [|c t].
    + cbn [append]. rewrite dropWhile_all; [reflexivity|].
      now rewrite allChars_app, Hb, Ha.
    + rewrite dropWhile_run by assumption.
      symmetry. now apply trimEnd_core.
  - intros ->.
    destruct (trimEnd_split (dropWhile isSpace s)) as (after & Es & Ha).
    exists (takeWhile isSpace s), after. repeat split.
    + rewrite <- Es. symmetry. apply take_drop.
    + apply takeWhile_all.
    + exact Ha.
    + apply trimEnd_start, dropWhile_start.
    + apply trimEnd_end.
Qed.

Lemma Forall2_trimmed segments ts :
  Forall2 trimmed segments ts <-> ts = map trim segments.
Proof.
  split.
  - induction 1 as [|s t segs ts H _ IH]; [reflexivity|].
    apply trimmed_trim in H. cbn. now rewrite H, IH.
  - intros ->. induction segments as [|s segs IH]; constructor; auto.
    now apply trimmed_trim.
Qed.

Lemma truthy_nonempty s : truthy s = negb (String.eqb s EmptyString).
Proof. now destruct s. Qed.

Lemma splitOn_pieces sep s pieces :
  splitOn sep s pieces -> Forall (fun p => allChars (non sep) p = true) pieces.
Proof. induction 1; constructor; auto. Qed.

(** C5.  [splitIntoSentences] returns the sentences of the text in the
    sense of the specification, and nothing else does: the text is split
    on the runs of one or more of [.], [!] and [?], every segment is
    trimmed of its surrounding white space, and the segments that are
    empty after trimming are dropped.  So every sentence returned is not
    empty, has no terminator and no white space at either end.  In
    particular ["Hello. World!"] gives [["Hello"; "World"]] and
    ["No terminator"] gives [["No terminator"]]. *)
Theorem splitIntoSentences_spec :
  (forall text sentences,
      sentencesOf text sentences <-> sentences = splitIntoSentences text) /\
  (forall text s,
      In s (splitIntoSentences text) ->
      s <> EmptyString /\ allChars (non isTerminator) s = true /\
      startsWith isSpace s = false /\ endsWith isSpace s = false) /\
  splitIntoSentences "Hello. World!" = ["Hello"; "World"] /\
  splitIntoSentences "No terminator" = ["No terminator"].
Proof.
  split; [|split; [|split; reflexivity]].
  - intros text sentences. unfold sentencesOf, splitIntoSentences. split.
    + intros (segments & ts & Hsplit & Htrim & ->).
      apply splitOn_splitRuns in Hsplit. apply Forall2_trimmed in Htrim.
      subst. apply filter_ext. intros s. symmetry. apply truthy_nonempty.
    + intros ->.
      exists (splitRuns isTerminator text),
             (map trim (splitRuns isTerminator text)).
      split; [now apply splitOn_splitRuns|].
      split; [now apply Forall2_trimmed|].
      apply filter_ext. intros s. apply truthy_nonempty.
  - intros text s Hin. unfold splitIntoSentences in Hin.
    apply filter_In in Hin as [Hin Hne].
    apply in_map_iff in Hin as (seg & <- & Hseg).
    split; [intros E; rewrite E in Hne; discriminate|].
    split.
    + assert (F := splitOn_pieces _ _ _
                     (proj1 (splitRuns_splitOn isTerminator text))).
      rewrite Forall_forall in F. specialize (F seg Hseg). cbn in F.
      unfold trim. now apply allChars_trimEnd, allChars_dropWhile.
    + unfold trim. split.
      * apply trimEnd_start, dropWhile_start.
      * apply trimEnd_end.
Qed.

Lemma splitIntoSentences_spec_witness :
  In "b c" (splitIntoSentences "  a?!  b c ... ") /\
  allChars (non isTerminator) "b c" = true.
Proof.
  assert (H : In "b c" (splitIntoSentences "  a?!  b c ... "))
    by (vm_compute; right; left; reflexivity).
  split; [exact H|].
  exact (proj1 (proj2
    (proj1 (proj2 splitIntoSentences_spec) "  a?!  b c ... " "b c" H))).
Defined.

(* ------------------------------------------------------------------ *)
(** ** isSentenceCase *)

Lemma upperChar_caseless c : isLower c = false -> upperChar c = c.
Proof. unfold upperChar. now intros ->. Qed.

Lemma isSpace_not_lower c : isSpace c = true -> isLower c = false.
Proof.
  unfold isSpace, isLower. intros H.
  apply orb_true_iff in H as [H|H].
  - apply andb_true_iff in H as [_ H]. apply Nat.leb_le in H.
    apply andb_false_iff. left. apply Nat.leb_gt. lia.
  - apply Nat.eqb_eq in H. rewrite H. reflexivity.
Qed.

Lemma splitRuns_nonempty sep s : splitRuns sep s <> [].
Proof.
  induction s as [|c s IH]; cbn; [discriminate|].
  destruct (sep c); [discriminate|].
  destruct (splitRuns sep s); [contradiction | discriminate].
Qed.

(** The first word starts with the first character of the text, unless
    the text starts with white space: then the first word is empty. *)
Lemma first_word c rest :
  exists w ws,
    splitRuns isSpace (String c rest)
    = (if isSpace c then EmptyString else String c w) :: ws.
Proof.
  cbn [splitRuns]. destruct (isSpace c); [eauto|].
  destruct (splitRuns isSpace rest) as [|w ws]; cbn; eauto.
Qed.

Lemma first_check c rest :
  firstWordNotUpper (splitRuns isSpace (String c rest))
  = negb (Ascii.eqb c (upperChar c)).
Proof.
  destruct (first_word c rest) as (w & ws & ->).
  destruct (isSpace c) eqn:E; [|reflexivity].
  cbn. rewrite upperChar_caseless by now apply isSpace_not_lower.
  now rewrite Ascii.eqb_refl.
Qed.

Lemma countCapitalized_filter ws :
  forall k,
    countCapitalized ws k = k + List.length (filter startsUpper ws).
Proof.
  induction ws as [|w ws IH]; intros k; cbn; [lia|].
  rewrite IH. destruct (startsUpper w); cbn; lia.
Qed.

Lemma capitalizedCount_filter words :
  capitalizedCount words = capitalizedAfterFirst words.
Proof.
  unfold capitalizedCount, capitalizedAfterFirst.
  rewrite countCapitalized_filter. now destruct words.
Qed.

(** C4.  [isSentenceCase] returns true on the empty text; false when the
    first word has a first character that is not upper case; otherwise
    true when there is exactly one word; and otherwise true exactly when
    the words from index 1 onward that start upper case are fewer than
    half of all the words, an empty word never counting as capitalized.
    The words are the pieces of the text between runs of white space.  In
    particular the four sample texts give true, false, true and false. *)
Theorem isSentenceCase_policy :
  (forall text,
      let words := splitRuns isSpace text in
      (text = EmptyString -> isSentenceCase text = true) /\
      (firstWordNotUpper words = true -> isSentenceCase text = false) /\
      (text <> EmptyString -> firstWordNotUpper words = false ->
       List.length words = 1 -> isSentenceCase text = true) /\
      (text <> EmptyString -> firstWordNotUpper words = false ->
       List.length words <> 1 ->
       (isSentenceCase text = true
        <-> 2 * capitalizedAfterFirst words < List.length words))) /\
  startsUpper EmptyString = false /\
  isSentenceCase EmptyString = true /\
  isSentenceCase "hello world" = false /\
  isSentenceCase "Hello world" = true /\
  isSentenceCase "Hello World Foo" = false.
Proof.
  split; [|repeat split].
  intros [|c rest] words.
  - repeat split; try reflexivity; intros; try discriminate; contradiction.
  - assert (Hfirst := first_check c rest). fold words in Hfirst.
    assert (Hlen : List.length words <> 0).
    { intros E. apply length_zero_iff_nil in E.
      now apply (splitRuns_nonempty isSpace (String c rest)). }
    unfold isSentenceCase. fold words. rewrite <- Hfirst.
    rewrite capitalizedCount_filter.
    split; [intros E; discriminate E|].
    split; [now intros ->|].
    split.
    + intros _ -> ->. reflexivity.
    + intros _ -> Hn.
      destruct (Nat.leb_spec (List.length words) 1) as [Hle|Hgt]; [lia|].
      apply Nat.ltb_lt.
Qed.

Lemma isSentenceCase_policy_witness :
  isSentenceCase " lower case after a blank" = true /\
  isSentenceCase "Title Case Heading" = false.
Proof.
  split.
  - refine (proj2 (proj2 (proj2 (proj2
      (proj1 isSentenceCase_policy " lower case after a blank")))
      _ _ _) _).
    + discriminate.
    + reflexivity.
    + vm_compute. discriminate.
    + vm_compute. lia.
  - destruct (isSentenceCase "Title Case Heading") eqn:E; [|reflexivity].
    exfalso.
    assert (H := proj1 (proj2 (proj2 (proj2
      (proj1 isSentenceCase_policy "Title Case Heading")))
      ltac:(discriminate) ltac:(reflexivity) ltac:(vm_compute; discriminate))
      E).
    vm_compute in H. lia.
Defined.

Lemma not_letter_caseless c : isLetter c = false -> upperChar c = c.
Proof.
  unfold isLetter. intros H. apply orb_false_iff in H as [H _].
  now apply upperChar_caseless.
Qed.

(** C10.  A character that is not a letter is its own upper-case image.
    So a text that starts with one passes the first check of
    [isSentenceCase], whose result is then decided by the word count and
    the tally alone; and a word that starts with one counts as
    capitalized: it adds one to the tally wherever it stands among the
    words after the first. *)
Theorem non_letter_counts_as_upper :
  forall (c : ascii) (rest : string),
    isLetter c = false ->
    upperChar c = c /\
    (let words := splitRuns isSpace (String c rest) in
     isSentenceCase (String c rest)
     = (List.length words <=? 1)
       || (2 * capitalizedCount words <? List.length words)) /\
    startsUpper (String c rest) = true /\
    (forall first before after,
        capitalizedCount (first :: before ++ String c rest :: after)
        = S (capitalizedCount (first :: before ++ after))).
Proof.
  intros c rest Hc.
  assert (Hup := not_letter_caseless c Hc).
  split; [exact Hup|].
  split; [|split].
  - cbn zeta. unfold isSentenceCase. rewrite Hup, Ascii.eqb_refl. cbn [negb].
    now destruct (_ <=? 1).
  - cbn. rewrite Hup. apply Ascii.eqb_refl.
  - intros first before after. unfold capitalizedCount. cbn [tl].
    rewrite !countCapitalized_filter, !filter_app, !length_app.
    cbn [filter startsUpper]. rewrite Hup, Ascii.eqb_refl. cbn. lia.
Qed.

Lemma non_letter_counts_as_upper_witness :
  isSentenceCase "1 2 3" = false /\ isSentenceCase " lower" = true.
Proof.
  split.
  - refine (eq_trans
      (proj1 (proj2 (non_letter_counts_as_upper "1"%char " 2 3" _))) _);
      reflexivity.
  - refine (eq_trans
      (proj1 (proj2 (non_letter_counts_as_upper " "%char "lower" _))) _);
      reflexivity.
Defined.

(* ------------------------------------------------------------------ *)
(** ** Sample runs *)

Example countWords_empty : countWords EmptyString = 0.
Proof. reflexivity. Qed.

Example countWords_blanks : countWords "  a   b " = 2.
Proof. reflexivity. Qed.

Example split_leading_blank : splitRuns isSpace " a  b" = [EmptyString; "a"; "b"].
Proof. reflexivity. Qed.

Example split_trailing_blank : splitRuns isSpace "a " = ["a"; EmptyString].
Proof. reflexivity. Qed.

Example basename_nested : basename "docs/guide/file.md/" = "file.md".
Proof. reflexivity. Qed.

Example text_report :
  formatOutput "docs/file.md"
    [mkDiagnostic 12 "heading-case" "warning" "Heading should be in sentence case."]
    "text"
  = Return (Text "file.md:12: Heading should be in sentence case. [heading-case] [warning]").
Proof. reflexivity. Qed.

Example heading_scenario :
  lintFile (root [heading 1 "the quick fix"]) defaultConfig
  = Return [Issue (mkDiagnostic 1 "heading-case" "warning"
                     "Heading should be in sentence case.")].
Proof. reflexivity. Qed.

Example banned_scenario :
  bannedPhrases (root [paragraph 2 "This feature Has Been deprecated."])
    (mkRuleConfig "error" "Banned phrase identified."
       (mkArgs None None
          (Some ["are used to"; "has been"; "has finished"; "if you want to"])))
  = [mkDiagnostic 2 "banned-phrases" "error" "Banned phrase identified."].
Proof. reflexivity. Qed.

(** With [min = 0] the default of 10 applies: a two-word sentence is
    reported. *)
Example zero_min_reports :
  minimumWordsInSentence (root [paragraph 2 "Too short."])
    (mkRuleConfig "warning" "Sentence may contain too few words"
       (mkArgs (Some 0%Z) None None))
  = [mkDiagnostic 2 "minimum-words-in-sentence" "warning"
       "Sentence may contain too few words"].
Proof. reflexivity. Qed.

(* ================================================================== *)
(** * Further properties of the helpers and evaluators *)

(** ** extractText *)

Lemma joinAll_app l1 l2 :
  joinAll (l1 ++ l2) = (joinAll l1 ++ joinAll l2)%string.
Proof.
  unfold joinAll. induction l1 as [|s l1 IH]; cbn; [reflexivity|].
  now rewrite IH, append_assoc.
Qed.

Lemma fold_append (ms : list node) :
  forall acc,
    fold_left (fun text m => (text ++ nodeValue m)%string) ms acc
    = (acc ++ joinAll (map nodeValue ms))%string.
Proof.
  unfold joinAll. induction ms as [|m ms IH]; intros acc; cbn.
  - now rewrite append_empty_r.
  - now rewrite IH, append_assoc.
Qed.

Lemma extractText_values n : extractText n = joinAll (textValues n).
Proof.
  unfold extractText, textValues. rewrite visit_preorder.
  now rewrite fold_append.
Qed.

Lemma textValues_children cs :
  joinAll (map nodeValue (filter (ofType "text") (flat_map preorder cs)))
  = joinAll (map extractText cs).
Proof.
  induction cs as [|c cs IH]; cbn; [reflexivity|].
  rewrite filter_app, map_app, joinAll_app, IH.
  now rewrite extractText_values.
Qed.

(** X1.  [extractText] is the concatenation, in document order and with
    nothing in between, of the values of the text nodes of the subtree; so
    the text of a node is its own value if it is a text node, followed by
    the texts of its children, whatever markup the children are. *)
Theorem extractText_document_order :
  (forall n, extractText n = joinAll (textValues n)) /\
  (forall t v l cs,
      extractText (Node t v l cs)
      = ((if String.eqb t "text" then v else EmptyString)
           ++ joinAll (map extractText cs))%string).
Proof.
  split; [exact extractText_values|].
  intros t v l cs. rewrite extractText_values. unfold textValues.
  cbn [preorder filter]. unfold ofType at 1. cbn [nodeType].
  destruct (String.eqb t "text"); cbn [map joinAll fold_right];
    fold (joinAll (map nodeValue
                  (filter (ofType "text") (flat_map preorder cs))));
    now rewrite textValues_children.
Qed.

(** ** Splitting a text that is made of two *)

Section Joined.
Variable sep : ascii -> bool.

Lemma consHead_app c pre rest :
  pre <> [] -> consHead c (pre ++ rest) = consHead c pre ++ rest.
Proof. destruct pre; [contradiction | reflexivity]. Qed.

Lemma consHead_nonempty c pre : consHead c pre <> [].
Proof. destruct pre; discriminate. Qed.

(** The pieces of [a], a separator and [b]: those of [a], without the
    empty last piece when [a] ends in a run, and then those of [b] read
    from inside a run. *)
Lemma splitRuns_join a c b :
  sep c = true ->
  (exists pre,
      pre <> [] /\
      splitRuns sep (a ++ String c b) = pre ++ afterRun sep b /\
      (pre = splitRuns sep a \/ pre ++ [EmptyString] = splitRuns sep a)) /\
  (exists pre,
      afterRun sep (a ++ String c b) = pre ++ afterRun sep b /\
      (pre = afterRun sep a \/ pre ++ [EmptyString] = afterRun sep a)).
Proof.
  intros Hc. induction a as [|x a [IHs IHr]].
  - split.
    + exists [EmptyString]. cbn. rewrite Hc. repeat split; auto. discriminate.
    + exists []. cbn. rewrite Hc. auto.
  - destruct IHs as (ps & Hne & Es & Hs). destruct IHr as (pr & Er & Hr).
    cbn [append splitRuns afterRun]. destruct (sep x).
    + split.
      * exists (EmptyString :: pr). rewrite Er. split; [discriminate|].
        split; [reflexivity|]. destruct Hr as [->| <-]; auto.
      * exists pr. auto.
    + rewrite Es, consHead_app by exact Hne.
      assert (H : consHead x ps = consHead x (splitRuns sep a) \/
                  consHead x ps ++ [EmptyString]
                  = consHead x (splitRuns sep a)).
      { destruct Hs as [->| <-]; [now left | right].
        now rewrite consHead_app. }
      split; exists (consHead x ps); repeat split; auto.
      apply consHead_nonempty.
Qed.

Variable B : Type.
Variable f : string -> B.
Variable keep : B -> bool.
Hypothesis drops_empty : keep (f EmptyString) = false.

Lemma kept_afterRun b :
  filter keep (map f (afterRun sep b)) = filter keep (map f (splitRuns sep b)).
Proof.
  destruct b as [|x b]; [reflexivity|].
  cbn [splitRuns afterRun]. destruct (sep x); [|reflexivity].
  cbn. now rewrite drops_empty.
Qed.

(** Once the empty pieces are dropped, the pieces of two texts joined by
    a separator are the pieces of the first and then those of the
    second. *)
Lemma kept_join a c b :
  sep c = true ->
  filter keep (map f (splitRuns sep (a ++ String c b)))
  = filter keep (map f (splitRuns sep a))
      ++ filter keep (map f (splitRuns sep b)).
Proof.
  intros Hc.
  destruct (proj1 (splitRuns_join a c b Hc)) as (pre & _ & -> & Hpre).
  rewrite map_app, filter_app, kept_afterRun. f_equal.
  destruct Hpre as [->| <-]; [reflexivity|].
  rewrite map_app, filter_app. cbn. rewrite drops_empty.
  now rewrite app_nil_r.
Qed.
End Joined.

(** ** countWords *)

Lemma nonempty_consHead c l :
  0 < List.length (filter (fun w => 0 <? String.length w) (consHead c l)).
Proof. destruct l; cbn; lia. Qed.

Lemma words_zero_blank s :
  (List.length (filter (fun w => 0 <? String.length w) (splitRuns isSpace s)) = 0
   <-> isBlank s = true) /\
  (List.length (filter (fun w => 0 <? String.length w) (afterRun isSpace s)) = 0
   <-> isBlank s = true).
Proof.
  unfold isBlank. induction s as [|x s [IHs IHr]]; [now cbn|].
  cbn [splitRuns afterRun allChars]. destruct (isSpace x); cbn [andb].
  - split; [exact IHr | exact IHr].
  - assert (H := nonempty_consHead x (splitRuns isSpace s)).
    split; split; intros E; try discriminate; lia.
Qed.

(** X2.  [countWords] is 0 exactly on the texts that are blank, the empty
    text among them; and the words of two texts joined by a white-space
    character are counted separately: the count of the whole is the sum
    of the two counts. *)
Theorem countWords_blank_and_sum :
  (forall s, countWords s = 0 <-> isBlank s = true) /\
  (forall a c b,
      isSpace c = true ->
      countWords (a ++ String c b) = countWords a + countWords b).
Proof.
  split.
  - intros s. apply words_zero_blank.
  - intros a c b Hc. unfold countWords.
    rewrite <- length_app. f_equal.
    rewrite <- (map_id (splitRuns isSpace (a ++ String c b))),
            <- (map_id (splitRuns isSpace a)),
            <- (map_id (splitRuns isSpace b)).
    now apply kept_join.
Qed.

Lemma countWords_blank_and_sum_witness :
  countWords "two words three more" = 2 + 2.
Proof.
  exact (proj2 countWords_blank_and_sum "two words" " "%char "three more"
           eq_refl).
Defined.

(** ** Sentences and their words *)

Lemma sentence_shape text s :
  In s (splitIntoSentences text) ->
  exists c s', s = String c s' /\ isSpace c = false.
Proof.
  unfold splitIntoSentences. intros H.
  apply filter_In in H as [H Hne].
  apply in_map_iff in H as (seg & <- & _).
  assert (Hs : startsWith isSpace (trim seg) = false)
    by (unfold trim; apply trimEnd_start, dropWhile_start).
  destruct (trim seg) as [|c s']; [discriminate|]. eauto.
Qed.

Lemma sentence_has_word text s :
  In s (splitIntoSentences text) -> 1 <= countWords s.
Proof.
  intros H. apply sentence_shape in H as (c & s' & -> & Hc).
  unfold countWords. cbn [splitRuns]. rewrite Hc.
  apply nonempty_consHead.
Qed.

Lemma filter_ext_in_len (A : Type) (f g : A -> bool) (l : list A) :
  (forall x, In x l -> f x = g x) -> filter f l = filter g l.
Proof.
  induction l as [|x l IH]; intros H; cbn; [reflexivity|].
  rewrite (H x (or_introl eq_refl)), IH; [reflexivity|].
  intros y Hy. apply H. now right.
Qed.

Lemma minimumWordsVisitor_emits config p :
  minimumWordsVisitor config p []
  = map (fun _ => issue p "minimum-words-in-sentence" config)
      (shortSentences (orDefault (arg_min (args config)) 10) p).
Proof.
  unfold minimumWordsVisitor, shortSentences. rewrite fold_push. cbn [app].
  f_equal. apply filter_ext_in_len. intros s Hs.
  apply sentence_has_word in Hs.
  destruct (Nat.ltb_spec 0 (countWords s)); [reflexivity | lia].
Qed.

Lemma maxWordsVisitor_emits config p :
  maxWordsVisitor config p []
  = map (fun _ => issue p "max-words-in-sentence" config)
      (longSentences (orDefault (arg_limit (args config)) 25) p).
Proof. unfold maxWordsVisitor, longSentences. now rewrite fold_push. Qed.

(** X3.  Every sentence [splitIntoSentences] returns has at least one
    word, so the test [wordCount > 0] of minimum-words-in-sentence never
    holds a diagnostic back: for a visited paragraph the evaluator pushes
    one diagnostic per sentence with fewer than [min] words, and over a
    tree it pushes these for the paragraphs in visiting order. *)
Theorem minimumWords_per_short_sentence :
  (forall text s, In s (splitIntoSentences text) -> 1 <= countWords s) /\
  (forall config p,
      minimumWordsVisitor config p []
      = map (fun _ => issue p "minimum-words-in-sentence" config)
          (shortSentences (orDefault (arg_min (args config)) 10) p)) /\
  (forall tree config,
      minimumWordsInSentence tree config
      = flat_map
          (fun p => map (fun _ => issue p "minimum-words-in-sentence" config)
                      (shortSentences (orDefault (arg_min (args config)) 10) p))
          (filter (ofType "paragraph") (preorder tree))).
Proof.
  split; [exact sentence_has_word|].
  split; [exact minimumWordsVisitor_emits|].
  intros tree config. unfold minimumWordsInSentence.
  rewrite (visit_pushes _ _ _ (minimumWordsVisitor_appends config)).
  cbn [app]. apply flat_map_ext. intros p.
  apply minimumWordsVisitor_emits.
Qed.

Lemma minimumWords_per_short_sentence_witness :
  1 <= countWords "b c".
Proof.
  refine (proj1 minimumWords_per_short_sentence "  a?!  b c ... " "b c" _).
  vm_compute. right. left. reflexivity.
Defined.

Lemma flat_map_nil (A B : Type) (f : A -> list B) (l : list A) :
  (forall x, f x = []) -> flat_map f l = [].
Proof.
  intros H. induction l as [|x l IH]; cbn; [reflexivity|].
  now rewrite H, IH.
Qed.

Lemma maxWordsInSentence_per_node tree config :
  maxWordsInSentence tree config
  = flat_map (fun p => maxWordsVisitor config p [])
      (filter (ofType "paragraph") (preorder tree)).
Proof.
  unfold maxWordsInSentence.
  now rewrite (visit_pushes _ _ _ (maxWordsVisitor_appends config)).
Qed.

Lemma minimumWordsInSentence_per_node tree config :
  minimumWordsInSentence tree config
  = flat_map (fun p => minimumWordsVisitor config p [])
      (filter (ofType "paragraph") (preorder tree)).
Proof.
  unfold minimumWordsInSentence.
  now rewrite (visit_pushes _ _ _ (minimumWordsVisitor_appends config)).
Qed.

Lemma filter_none (A : Type) (f : A -> bool) (l : list A) :
  (forall x, In x l -> f x = false) -> filter f l = [].
Proof.
  induction l as [|x l IH]; intros H; cbn; [reflexivity|].
  rewrite (H x (or_introl eq_refl)). apply IH. intros y Hy. apply H. now right.
Qed.

Lemma filter_all (A : Type) (f : A -> bool) (l : list A) :
  (forall x, In x l -> f x = true) -> filter f l = l.
Proof.
  induction l as [|x l IH]; intros H; cbn; [reflexivity|].
  rewrite (H x (or_introl eq_refl)). f_equal. apply IH.
  intros y Hy. apply H. now right.
Qed.

(** X4.  Thresholds below 1.  With a [min] of 1 or a negative [min]
    minimum-words-in-sentence reports nothing, whatever the tree; with a
    negative [limit] max-words-in-sentence reports every sentence of every
    paragraph. *)
Theorem thresholds_below_one :
  forall (tree : node) (config : ruleConfig) (m : Z),
    m <> 0%Z -> (m <= 1)%Z ->
    (arg_min (args config) = Some m ->
     minimumWordsInSentence tree config = []) /\
    ((m < 0)%Z -> arg_limit (args config) = Some m ->
     maxWordsInSentence tree config
     = flat_map
         (fun p => map (fun _ => issue p "max-words-in-sentence" config)
                     (splitIntoSentences (extractText p)))
         (filter (ofType "paragraph") (preorder tree))).
Proof.
  intros tree config m Hm0 Hm1.
  assert (Hd : forall d, orDefault (Some m) d = m)
    by (intros d; destruct m; [contradiction | reflexivity | reflexivity]).
  split.
  - intros Hmin. rewrite minimumWordsInSentence_per_node.
    apply flat_map_nil. intros p.
    rewrite minimumWordsVisitor_emits, Hmin, Hd. unfold shortSentences.
    rewrite filter_none; [reflexivity|].
    intros s Hs. apply sentence_has_word in Hs.
    apply Z.ltb_ge. lia.
  - intros Hneg Hlim. rewrite maxWordsInSentence_per_node.
    apply flat_map_ext. intros p.
    rewrite maxWordsVisitor_emits, Hlim, Hd. unfold longSentences.
    f_equal. apply filter_all.
    intros s _. apply Z.ltb_lt. lia.
Qed.

Lemma thresholds_below_one_witness :
  minimumWordsInSentence (root [paragraph 2 "Short. Also short."])
    (mkRuleConfig "warning" "Sentence may contain too few words"
       (mkArgs (Some 1%Z) None None))
  = [].
Proof.
  refine (proj1 (thresholds_below_one
    (root [paragraph 2 "Short. Also short."])
    (mkRuleConfig "warning" "Sentence may contain too few words"
       (mkArgs (Some 1%Z) None None))
    1%Z _ _) eq_refl); lia.
Defined.



(** ** What a diagnostic carries *)

Section Pushed.
Variable test : node -> bool.
Variable visitor : node -> list diagnostic -> list diagnostic.
Variable ruleId : string.
Variable config : ruleConfig.
Hypothesis appends : forall n acc, visitor n acc = acc ++ visitor n [].
Hypothesis pushes_issue :
  forall n d, In d (visitor n []) -> d = issue n ruleId config.

Lemma pushed_from_visited tree d :
  In d (visit test visitor tree []) ->
  exists n, In n (preorder tree) /\ test n = true /\ d = issue n ruleId config.
Proof.
  rewrite (visit_pushes _ test visitor appends). cbn [app].
  intros H. apply in_flat_map in H as (n & Hn & Hd).
  apply filter_In in Hn as [Hn Ht]. eauto.
Qed.
End Pushed.

Lemma in_constant_map (A B : Type) (b d : B) (l : list A) :
  In d (map (fun _ => b) l) -> d = b.
Proof. intros H. apply in_map_iff in H as (x & <- & _). reflexivity. Qed.

Lemma headingCaseVisitor_emits config h :
  headingCaseVisitor config h []
  = if negb (isSentenceCase (extractText h))
    then [issue h "heading-case" config] else [].
Proof. reflexivity. Qed.

Lemma maxSentencesVisitor_emits config p :
  maxSentencesVisitor config p []
  = if (orDefault (arg_limit (args config)) 5
        <? Z.of_nat (List.length (splitIntoSentences (extractText p))))%Z
    then [issue p "max-sentences-in-paragraph" config] else [].
Proof. reflexivity. Qed.

Lemma ofTypes_two a b n :
  ofTypes [a; b] n = true -> nodeType n = a \/ nodeType n = b.
Proof.
  unfold ofTypes. cbn. intros H.
  apply orb_true_iff in H as [H|H]; [left; now apply String.eqb_eq|].
  apply orb_true_iff in H as [H|H]; [right; now apply String.eqb_eq|].
  discriminate.
Qed.

(** What every diagnostic of a catalog rule carries. *)
Lemma emitted_fields name evaluate tree config d :
  rules name = Some evaluate ->
  In d (evaluate tree config) ->
  exists n,
    In n (preorder tree) /\
    (nodeType n = "heading" \/ nodeType n = "paragraph") /\
    d = issue n (kebab name) config.
Proof.
  unfold rules. intros Hr Hd.
  destruct (String.eqb_spec name "headingCase") as [->|_].
  { injection Hr as <-.
    apply (pushed_from_visited _ _ "heading-case" config
             (headingCaseVisitor_appends config)) in Hd.
    - destruct Hd as (n & Hn & Ht & ->). exists n. repeat split; auto.
      left. now apply String.eqb_eq.
    - intros n d' H. rewrite headingCaseVisitor_emits in H.
      destruct (negb _); [|contradiction]. destruct H as [<-|[]]. reflexivity. }
  destruct (String.eqb_spec name "minimumWordsInSentence") as [->|_].
  { injection Hr as <-.
    apply (pushed_from_visited _ _ "minimum-words-in-sentence" config
             (minimumWordsVisitor_appends config)) in Hd.
    - destruct Hd as (n & Hn & Ht & ->). exists n. repeat split; auto.
      right. now apply String.eqb_eq.
    - intros n d' H. rewrite minimumWordsVisitor_emits in H.
      now apply in_constant_map in H. }
  destruct (String.eqb_spec name "maxWordsInSentence") as [->|_].
  { injection Hr as <-.
    apply (pushed_from_visited _ _ "max-words-in-sentence" config
             (maxWordsVisitor_appends config)) in Hd.
    - destruct Hd as (n & Hn & Ht & ->). exists n. repeat split; auto.
      right. now apply String.eqb_eq.
    - intros n d' H. rewrite maxWordsVisitor_emits in H.
      now apply in_constant_map in H. }
  destruct (String.eqb_spec name "maxSentencesInParagraph") as [->|_].
  { injection Hr as <-.
    apply (pushed_from_visited _ _ "max-sentences-in-paragraph" config
             (maxSentencesVisitor_appends config)) in Hd.
    - destruct Hd as (n & Hn & Ht & ->). exists n. repeat split; auto.
      right. now apply String.eqb_eq.
    - intros n d' H. rewrite maxSentencesVisitor_emits in H.
      destruct (_ <? _)%Z; [|contradiction]. destruct H as [<-|[]].
      reflexivity. }
  destruct (String.eqb_spec name "bannedPhrases") as [->|_]; [|discriminate].
  injection Hr as <-.
  apply (pushed_from_visited _ _ "banned-phrases" config
           (bannedPhrasesVisitor_appends config)) in Hd.
  - destruct Hd as (n & Hn & Ht & ->). exists n. repeat split; auto.
    apply ofTypes_two in Ht. tauto.
  - intros n d' H. rewrite bannedPhrasesVisitor_emits in H.
    now apply in_constant_map in H.
Qed.

(** X6.  Every diagnostic of a rule of the catalog takes its severity
    and its message from the rule's configuration entry, its rule id is
    the configured rule name in kebab case, and its line is the start line
    of a heading or paragraph node of the tree, 0 when that node has no
    position; so a tree without headings and paragraphs gets no
    diagnostic from any rule. *)
Theorem diagnostic_fields_from_config :
  forall (name : string) (evaluate : evaluator) (tree : node)
         (config : ruleConfig),
    rules name = Some evaluate ->
    (forall d,
        In d (evaluate tree config) ->
        severity d = level config /\
        message d = cfg_message config /\
        rule d = kebab name /\
        exists n,
          In n (preorder tree) /\
          (nodeType n = "heading" \/ nodeType n = "paragraph") /\
          line d = startLine n) /\
    ((forall n, In n (preorder tree) ->
                nodeType n <> "heading" /\ nodeType n <> "paragraph") ->
     evaluate tree config = []).
Proof.
  intros name evaluate tree config Hr. split.
  - intros d Hd.
    destruct (emitted_fields name evaluate tree config d Hr Hd)
      as (n & Hn & Ht & ->).
    cbn. repeat split; eauto.
  - intros Hnone. destruct (evaluate tree config) as [|d l] eqn:E;
      [reflexivity|].
    destruct (emitted_fields name evaluate tree config d Hr) as (n & Hn & Ht & _).
    + rewrite E. now left.
    + destruct (Hnone n Hn) as [H1 H2]. tauto.
Qed.

Lemma diagnostic_fields_from_config_witness :
  maxWordsInSentence (root [Node "code" "x. y. z." (Some 2) []])
    (mkRuleConfig "error" "Too many words in sentence."
       (mkArgs None (Some (-1)%Z) None))
  = [].
Proof.
  refine (proj2 (diagnostic_fields_from_config "maxWordsInSentence"
    maxWordsInSentence (root [Node "code" "x. y. z." (Some 2) []])
    (mkRuleConfig "error" "Too many words in sentence."
       (mkArgs None (Some (-1)%Z) None)) eq_refl) _).
  intros n [<-|[<-|[]]]; split; discriminate.
Defined.

(** X7.  heading-case pushes one diagnostic per heading node whose text
    is not in sentence case, in document order, and none for any other
    node; a heading inside another node (a block quote, a list item) is
    found as well. *)
Theorem headingCase_per_heading :
  forall (tree : node) (config : ruleConfig),
    headingCase tree config
    = map (fun h => issue h "heading-case" config)
        (filter (fun h => negb (isSentenceCase (extractText h)))
           (filter (ofType "heading") (preorder tree))).
Proof.
  intros tree config. unfold headingCase.
  rewrite (visit_pushes _ _ _ (headingCaseVisitor_appends config)).
  cbn [app].
  induction (filter (ofType "heading") (preorder tree)) as [|h hs IH];
    cbn; [reflexivity|].
  rewrite IH, headingCaseVisitor_emits.
  now destruct (negb (isSentenceCase (extractText h))).
Qed.

(* ================================================================== *)
(** * Further properties of lintFile and of the exit status *)

Lemma sorted_perm_lines (l1 l2 : list nat) :
  StronglySorted le l1 -> StronglySorted le l2 -> Permutation l1 l2 ->
  l1 = l2.
Proof.
  intros S1. revert l2. induction S1 as [|x l1 S1 IH F1]; intros l2 S2 P.
  - apply Permutation_nil in P. now subst.
  - destruct S2 as [|y l2 S2 F2].
    + apply Permutation_sym, Permutation_nil in P. discriminate.
    + assert (Exy : x = y).
      { assert (Hx : In x (y :: l2))
          by (eapply Permutation_in; [exact P | now left]).
        assert (Hy : In y (x :: l1))
          by (eapply Permutation_in;
              [apply Permutation_sym; exact P | now left]).
        rewrite Forall_forall in F1, F2.
        destruct Hx as [->|Hx]; [reflexivity|].
        destruct Hy as [->|Hy]; [reflexivity|].
        specialize (F1 y Hy). specialize (F2 x Hx). lia. }
      subst y. f_equal. apply IH; [exact S2|].
      now apply Permutation_cons_inv in P.
Qed.

Lemma sorted_lines ds :
  StronglySorted byLine ds -> StronglySorted le (map line ds).
Proof.
  induction 1 as [|d ds S IH F]; cbn; constructor; auto.
  rewrite Forall_forall in *. intros n Hn.
  apply in_map_iff in Hn as (d' & <- & Hd'). now apply F.
Qed.

Lemma flat_map_perm (A B : Type) (f : A -> list B) (l1 l2 : list A) :
  Permutation l1 l2 -> Permutation (flat_map f l1) (flat_map f l2).
Proof.
  induction 1; cbn.
  - constructor.
  - now apply Permutation_app_head.
  - rewrite !app_assoc. apply Permutation_app_tail, Permutation_app_comm.
  - etransitivity; eassumption.
Qed.

(** X8.  The order of the rules in the configuration matters for ties
    only: two configurations with the same entries in another order give
    the same diagnostics, with the same sequence of line numbers; only
    diagnostics of one line can change places. *)
Theorem rule_order_only_breaks_ties :
  forall (ast : node) (config1 config2 : lintConfig)
         (ds1 ds2 : list diagnostic),
    Permutation (cfg_rules config1) (cfg_rules config2) ->
    lintFile ast config1 = Return (map Issue ds1) ->
    lintFile ast config2 = Return (map Issue ds2) ->
    Permutation ds1 ds2 /\ map line ds1 = map line ds2.
Proof.
  intros ast config1 config2 ds1 ds2 P H1 H2.
  apply lintFile_diagnostics in H1, H2.
  assert (Pd : Permutation ds1 ds2).
  { subst ds1 ds2.
    rewrite <- !sort_perm. now apply flat_map_perm. }
  split; [exact Pd|].
  apply sorted_perm_lines.
  - apply sorted_lines. subst ds1. apply sort_sorted.
  - apply sorted_lines. subst ds2. apply sort_sorted.
  - now apply Permutation_map.
Qed.

Lemma rule_order_only_breaks_ties_witness :
  let ast := root [heading 1 "the has been"] in
  let heads := ("headingCase", mkRuleConfig "warning" "case" (mkArgs None None None)) in
  let bans := ("bannedPhrases",
               mkRuleConfig "error" "banned" (mkArgs None None (Some ["has been"]))) in
  map line [mkDiagnostic 1 "heading-case" "warning" "case";
            mkDiagnostic 1 "banned-phrases" "error" "banned"]
  = map line [mkDiagnostic 1 "banned-phrases" "error" "banned";
              mkDiagnostic 1 "heading-case" "warning" "case"].
Proof.
  intros ast heads bans.
  refine (proj2 (rule_order_only_breaks_ties ast
    (mkConfig [heads; bans] "text") (mkConfig [bans; heads] "text")
    _ _ _ _ _)).
  - apply perm_swap.
  - vm_compute. reflexivity.
  - vm_compute. reflexivity.
Defined.

Lemma runRules_throws ast entries :
  forall acc,
    (exists e, runRules ast entries acc = Throw e)
    <-> existsb (fun entry => throwing (fst entry)) entries = true.
Proof.
  induction entries as [|[name rc] entries IH]; intros acc.
  - cbn. split; [intros [e H]; discriminate | discriminate].
  - cbn [runRules existsb fst]. unfold throwing at 1.
    destruct (rules name) as [ev|]; [apply IH|].
    destruct (inherited name) as [[s|e]|]; cbn [bind orb].
    + apply IH.
    + split; [reflexivity | eauto].
    + apply IH.
Qed.

(** X9.  When an entry of the configuration is named [constructor],
    [hasOwnProperty], [isPrototypeOf], [propertyIsEnumerable], [valueOf],
    [__proto__], [__defineGetter__], [__defineSetter__], [__lookupGetter__]
    or [__lookupSetter__], [lintFile] throws a TypeError, wherever the
    entry stands among the rules, whatever the other entries are and
    whatever the document is. *)
Theorem inherited_name_throws_anywhere :
  forall (ast : node) (config : lintConfig) (name : string) (rc : ruleConfig),
    In (name, rc) (cfg_rules config) ->
    In name
      [ "constructor"; "hasOwnProperty"; "isPrototypeOf";
        "propertyIsEnumerable"; "valueOf"; "__proto__";
        "__defineGetter__"; "__defineSetter__";
        "__lookupGetter__"; "__lookupSetter__" ] ->
    lintFile ast config = Throw TypeError.
Proof.
  intros ast config name rc Hin Hname.
  assert (Ht : throwing name = true).
  { repeat (destruct Hname as [<-|Hname]; [reflexivity|]). contradiction. }
  assert (Hex : existsb (fun entry => throwing (fst entry))
                  (cfg_rules config) = true).
  { apply existsb_exists. exists (name, rc). split; [exact Hin | exact Ht]. }
  apply (runRules_throws ast (cfg_rules config) []) in Hex as [e He].
  unfold lintFile. rewrite He. now destruct e.
Qed.

Lemma inherited_name_throws_anywhere_witness :
  lintFile (root [paragraph 1 "Some text."])
    (mkConfig [("headingCase", mkRuleConfig "warning" "m" (mkArgs None None None));
               ("valueOf", mkRuleConfig "error" "m" (mkArgs None None None));
               ("bannedPhrases", mkRuleConfig "error" "m" (mkArgs None None None))]
       "text")
  = Throw TypeError.
Proof.
  refine (inherited_name_throws_anywhere (root [paragraph 1 "Some text."])
    (mkConfig [("headingCase", mkRuleConfig "warning" "m" (mkArgs None None None));
               ("valueOf", mkRuleConfig "error" "m" (mkArgs None None None));
               ("bannedPhrases", mkRuleConfig "error" "m" (mkArgs None None None))]
       "text")
    "valueOf" (mkRuleConfig "error" "m" (mkArgs None None None)) _ _).
  - right. left. reflexivity.
  - do 4 right. left. reflexivity.
Defined.

Lemma runRules_issues ast entries :
  forall acc all,
    runRules ast entries acc = Return all ->
    forall d,
      In (Issue d) all
      <-> In (Issue d) acc \/ In d (flat_map (emitted ast) entries).
Proof.
  induction entries as [|[name rc] entries IH]; intros acc all H d.
  - cbn in H. injection H as <-. cbn. tauto.
  - cbn [runRules] in H. cbn [flat_map]. unfold emitted at 1. cbn [fst snd].
    destruct (rules name) as [ev|].
    + rewrite (IH _ _ H d), !in_app_iff, in_map_iff.
      split.
      * intros [[Ha|(d' & [= ->] & Hd)]|Hr]; auto.
      * intros [Ha|[Hd|Hr]]; eauto.
    + destruct (inherited name) as [[s|e]|]; cbn [bind] in H;
        [|discriminate|].
      * rewrite (IH _ _ H d), in_app_iff, in_map_iff. cbn [app].
        split.
        -- intros [[Ha|(c & Hc & _)]|Hr]; auto. discriminate Hc.
        -- intros [Ha|Hr]; auto.
      * cbn [app]. apply (IH _ _ H d).
Qed.

Lemma hasErrors_iff items :
  hasErrors items = true
  <-> exists d, In (Issue d) items /\ severity d = "error".
Proof.
  unfold hasErrors. rewrite existsb_exists. split.
  - intros ([d|c] & Hin & Hs); cbn in Hs; [|discriminate].
    apply String.eqb_eq in Hs. eauto.
  - intros (d & Hin & Hs). exists (Issue d). split; [exact Hin|].
    cbn. now apply String.eqb_eq.
Qed.

Lemma failing_iff ast entries :
  existsb (failing ast) entries = true
  <-> exists d, In d (flat_map (emitted ast) entries) /\ severity d = "error".
Proof.
  rewrite existsb_exists. split.
  - intros ([name rc] & Hin & Hf). unfold failing in Hf.
    apply andb_true_iff in Hf as [Hl Hne]. cbn [snd] in Hl.
    apply String.eqb_eq in Hl.
    destruct (emitted ast (name, rc)) as [|d l] eqn:E; [discriminate|].
    exists d. split.
    + apply in_flat_map. exists (name, rc). split; [exact Hin|].
      rewrite E. now left.
    + assert (Hd : In d (emitted ast (name, rc))) by (rewrite E; now left).
      unfold emitted in Hd. cbn [fst snd] in Hd.
      destruct (rules name) as [ev|] eqn:Er; [|contradiction].
      destruct (emitted_fields name ev ast rc d Er Hd) as (n & _ & _ & ->).
      exact Hl.
  - intros (d & Hin & Hs). apply in_flat_map in Hin as ([name rc] & Hin & Hd).
    exists (name, rc). split; [exact Hin|].
    unfold failing. apply andb_true_iff. cbn [snd]. split.
    + assert (Hd' := Hd). unfold emitted in Hd'. cbn [fst snd] in Hd'.
      destruct (rules name) as [ev|] eqn:Er; [|contradiction].
      destruct (emitted_fields name ev ast rc d Er Hd') as (n & _ & _ & ->).
      now apply String.eqb_eq.
    + destruct (emitted ast (name, rc)); [contradiction | reflexivity].
Qed.

(** X10.  The exit status after a run that returns is 1 exactly when
    some rule of the catalog is configured at level [error] and reports
    at least one diagnostic on the document, and 0 otherwise: rules at any
    other level never fail the run, however many diagnostics they
    report. *)
Theorem exit_status_by_error_level :
  forall (ast : node) (config : lintConfig) (issues : list item),
    lintFile ast config = Return issues ->
    exitCode issues
      = (if existsb (failing ast) (cfg_rules config) then 1 else 0) /\
    ((forall name rc, In (name, rc) (cfg_rules config) ->
                      level rc <> "error") ->
     exitCode issues = 0).
Proof.
  intros ast config issues H. unfold lintFile in H.
  destruct (runRules ast (cfg_rules config) []) as [all|e] eqn:Hrun;
    cbn in H; [|discriminate].
  injection H as <-.
  assert (E : hasErrors (sort compareLines all) = true
              <-> existsb (failing ast) (cfg_rules config) = true).
  { rewrite hasErrors_iff, failing_iff. split.
    - intros (d & Hin & Hs). exists d. split; [|exact Hs].
      apply (Permutation_in _ (Permutation_sym (sort_perm _ compareLines all)))
        in Hin.
      apply (runRules_issues _ _ _ _ Hrun) in Hin as [[]|Hin]. exact Hin.
    - intros (d & Hin & Hs). exists d. split; [|exact Hs].
      apply (Permutation_in _ (sort_perm _ compareLines all)).
      apply (runRules_issues _ _ _ _ Hrun). now right. }
  assert (Ec : exitCode (sort compareLines all)
               = if existsb (failing ast) (cfg_rules config) then 1 else 0).
  { unfold exitCode.
    destruct (hasErrors (sort compareLines all));
      destruct (existsb (failing ast) (cfg_rules config));
      try reflexivity.
    - destruct E as [E _]. discriminate (E eq_refl).
    - destruct E as [_ E]. discriminate (E eq_refl). }
  split; [exact Ec|].
  intros Hlevels. rewrite Ec.
  destruct (existsb (failing ast) (cfg_rules config)) eqn:Ef; [|reflexivity].
  apply existsb_exists in Ef as ([name rc] & Hin & Hf).
  unfold failing in Hf. apply andb_true_iff in Hf as [Hl _].
  apply String.eqb_eq in Hl. now destruct (Hlevels name rc Hin).
Qed.

Lemma exit_status_by_error_level_witness :
  exitCode
    [Issue (mkDiagnostic 1 "heading-case" "warning"
              "Heading should be in sentence case.")]
  = 0.
Proof.
  refine (eq_trans (proj1 (exit_status_by_error_level
    (root [heading 1 "the quick fix"]) defaultConfig _ _)) _).
  - vm_compute. reflexivity.
  - vm_compute. reflexivity.
Defined.

(* ================================================================== *)
(** * Further properties of the text helpers *)

(** X11.  The sentences of two texts joined by a terminator are the
    sentences of the first followed by those of the second; and a text
    without terminator is one sentence, its trimmed self, or none when it
    is blank. *)
Theorem sentences_of_joined_texts :
  (forall a c b,
      isTerminator c = true ->
      splitIntoSentences (a ++ String c b)
      = splitIntoSentences a ++ splitIntoSentences b) /\
  (forall text,
      allChars (non isTerminator) text = true ->
      splitIntoSentences text
      = if truthy (trim text) then [trim text] else []).
Proof.
  split.
  - intros a c b Hc. unfold splitIntoSentences.
    now apply kept_join.
  - intros text H. unfold splitIntoSentences.
    now rewrite splitRuns_piece.
Qed.

Lemma sentences_of_joined_texts_witness :
  splitIntoSentences "First one. Second one"
  = splitIntoSentences "First one" ++ splitIntoSentences " Second one".
Proof.
  exact (proj1 sentences_of_joined_texts "First one" "."%char " Second one"
           eq_refl).
Defined.

Lemma count_all ws :
  forallb startsUpper ws = true ->
  List.length (filter startsUpper ws) = List.length ws.
Proof.
  intros H. rewrite filter_all; [reflexivity|].
  now apply forallb_forall.
Qed.

Lemma count_none ws :
  forallb (fun w => negb (startsUpper w)) ws = true ->
  List.length (filter startsUpper ws) = 0.
Proof.
  intros H. rewrite filter_none; [reflexivity|].
  intros w Hw. rewrite forallb_forall in H.
  apply negb_true_iff. now apply H.
Qed.

(** X12.  For a text of two or more words whose first character is its
    own upper-case image: when every word after the first starts upper
    case (title case) [isSentenceCase] is false, and when none does it is
    true. *)
Theorem title_case_rejected :
  forall (c : ascii) (rest : string),
    let text := String c rest in
    let words := splitRuns isSpace text in
    upperChar c = c ->
    2 <= List.length words ->
    (forallb startsUpper (tl words) = true -> isSentenceCase text = false) /\
    (forallb (fun w => negb (startsUpper w)) (tl words) = true ->
     isSentenceCase text = true).
Proof.
  intros c rest text words Hc Hlen.
  unfold text, isSentenceCase. fold text. fold words.
  rewrite Hc, Ascii.eqb_refl. cbn [negb].
  destruct (Nat.leb_spec (List.length words) 1) as [Hle|_]; [lia|].
  unfold capitalizedCount. rewrite countCapitalized_filter. cbn [plus].
  assert (Htl : List.length (tl words) = List.length words - 1)
    by (destruct words; cbn; lia).
  split; intros H.
  - rewrite (count_all _ H), Htl. apply Nat.ltb_ge. lia.
  - rewrite (count_none _ H). apply Nat.ltb_lt. lia.
Qed.

Lemma title_case_rejected_witness :
  isSentenceCase "Install Node On Linux" = false /\
  isSentenceCase "Install the tool" = true.
Proof.
  split.
  - refine (proj1 (title_case_rejected "I"%char "nstall Node On Linux" _ _) _);
      [reflexivity | vm_compute; lia | reflexivity].
  - refine (proj2 (title_case_rejected "I"%char "nstall the tool" _ _) _);
      [reflexivity | vm_compute; lia | reflexivity].
Defined.

(** ** Matching a banned phrase *)







(* ================================================================== *)
(** * Further properties of loadConfig and formatOutput *)

(** X14.  How [loadConfig] resolves the configuration.  An explicit path
    that does not exist, like the empty path, is not an error: the result
    is the one without [--config], which is the built-in default when
    there is no [.doclint.json] either.  A file that exists and cannot be
    read or parsed ends the process with status 1, also when it is the
    explicit one and a valid [.doclint.json] stands by; an explicit file
    that parses is used as it is.  The process never exits here with
    another status than 1. *)
Theorem loadConfig_resolution :
  forall (existsSync : string -> bool)
         (readConfig : string -> option lintConfig)
         (defaultConfigPath : string),
    let load := loadConfig existsSync readConfig defaultConfigPath in
    (forall path, existsSync path = false -> load (Some path) = load None) /\
    load (Some EmptyString) = load None /\
    (existsSync defaultConfigPath = false -> load None = Loaded defaultConfig) /\
    (forall path,
        truthy path = true -> existsSync path = true ->
        readConfig path = None -> load (Some path) = Exit 1) /\
    (forall path config,
        truthy path = true -> existsSync path = true ->
        readConfig path = Some config -> load (Some path) = Loaded config) /\
    (existsSync defaultConfigPath = true ->
     readConfig defaultConfigPath = None -> load None = Exit 1) /\
    (forall configPath code, load configPath = Exit code -> code = 1).
Proof.
  intros existsSync readConfig defaultConfigPath load.
  unfold load, loadConfig, loadFrom.
  split; [intros path ->; now rewrite andb_false_r|].
  split; [reflexivity|].
  split; [now intros ->|].
  split; [now intros path -> -> ->|].
  split; [now intros path config -> -> ->|].
  split; [now intros -> ->|].
  intros [path|] code;
    repeat match goal with
           | |- context [if ?b then _ else _] => destruct b
           | |- context [match readConfig ?p with _ => _ end] =>
               destruct (readConfig p)
           end; intros H; try discriminate H; now injection H.
Qed.

Lemma loadConfig_resolution_witness :
  loadConfig (fun path => String.eqb path "/work/.doclint.json")
    (fun _ => None) "/work/.doclint.json" (Some "missing.json")
  = Exit 1.
Proof.
  refine (eq_trans
    (proj1 (loadConfig_resolution
              (fun path => String.eqb path "/work/.doclint.json")
              (fun _ => None) "/work/.doclint.json") "missing.json" _) _);
    reflexivity.
Defined.

(** ** The text report *)

Lemma length_append a b :
  String.length (a ++ b) = String.length a + String.length b.
Proof. induction a as [|c a IH]; cbn; [reflexivity | now rewrite IH]. Qed.

Lemma append_cancel_l a x y : (a ++ x = a ++ y)%string -> x = y.
Proof.
  induction a as [|c a IH]; cbn; [auto|].
  intros H. injection H as H. now apply IH.
Qed.

Lemma append_cancel_r a :
  forall x y, (x ++ a = y ++ a)%string -> x = y.
Proof.
  induction x as [|c x IH]; intros [|d y] H; cbn in H.
  - reflexivity.
  - apply (f_equal String.length) in H. cbn in H.
    rewrite length_append in H. lia.
  - apply (f_equal String.length) in H. cbn in H.
    rewrite length_append in H. lia.
  - injection H as -> H. f_equal. now apply IH.
Qed.

Section Marks.
Variable p : ascii -> bool.
Variable c : ascii.
Hypothesis mark : p c = true.

(** A text is cut in one way at its first mark. *)
Lemma cut_at_first x1 :
  forall x2 y1 y2,
    allChars (non p) x1 = true -> allChars (non p) x2 = true ->
    (x1 ++ String c y1 = x2 ++ String c y2)%string ->
    x1 = x2 /\ y1 = y2.
Proof.
  induction x1 as [|a x1 IH]; intros [|b x2] y1 y2 H1 H2 E; cbn in *.
  - injection E as E. auto.
  - injection E as <- _. unfold non in H2. now rewrite mark in H2.
  - injection E as -> _. unfold non in H1. now rewrite mark in H1.
  - injection E as -> E.
    apply andb_true_iff in H1 as [_ H1]. apply andb_true_iff in H2 as [_ H2].
    destruct (IH x2 y1 y2 H1 H2 E) as [-> ->]. auto.
Qed.

(** And in one way at its last mark. *)
Lemma cut_at_last x1 :
  forall x2 y1 y2,
    allChars (non p) y1 = true -> allChars (non p) y2 = true ->
    (x1 ++ String c y1 = x2 ++ String c y2)%string ->
    x1 = x2 /\ y1 = y2.
Proof.
  assert (Hin : forall x y, allChars (non p) (x ++ String c y) = false).
  { intros x y. rewrite allChars_app. cbn. unfold non at 2. rewrite mark.
    cbn. apply andb_false_r. }
  induction x1 as [|a x1 IH]; intros [|b x2] y1 y2 H1 H2 E; cbn in *.
  - injection E as E. auto.
  - injection E as _ E. rewrite E, Hin in H1. discriminate.
  - injection E as _ E. rewrite <- E, Hin in H2. discriminate.
  - injection E as -> E. destruct (IH x2 y1 y2 H1 H2 E) as [-> ->]. auto.
Qed.
End Marks.

Lemma digits_of_uint (q : ascii -> bool) :
  (forall a, isDigit a = true -> q a = true) ->
  forall d, allChars q (NilEmpty.string_of_uint d) = true.
Proof.
  intros Hq. induction d; cbn; try rewrite IHd; try reflexivity;
    rewrite Hq; reflexivity.
Qed.

Lemma to_uint_nonnil n : Nat.to_uint n <> Decimal.Nil.
Proof.
  rewrite <- (DecimalNat.Unsigned.of_to n) at 1.
  rewrite DecimalNat.Unsigned.to_of. apply DecimalFacts.unorm_nonnil.
Qed.

Lemma showNumber_digits (q : ascii -> bool) n :
  (forall a, isDigit a = true -> q a = true) ->
  allChars q (showNumber n) = true.
Proof.
  intros Hq. unfold showNumber, NilZero.string_of_uint.
  assert (H := to_uint_nonnil n).
  destruct (Nat.to_uint n) eqn:E; try contradiction;
    rewrite <- E; now apply digits_of_uint.
Qed.

Lemma showNumber_inj n m : showNumber n = showNumber m -> n = m.
Proof.
  unfold showNumber. intros H.
  apply (f_equal NilZero.uint_of_string) in H.
  rewrite !NilZero.usu in H by apply to_uint_nonnil.
  injection H as H. now apply DecimalNat.Unsigned.to_uint_inj.
Qed.

Lemma digit_marks a :
  isDigit a = true -> non isColon a = true /\ non isNewline a = true.
Proof.
  destruct a as [[] [] [] [] [] [] [] []]; cbn; intros H;
    try discriminate H; split; reflexivity.
Qed.

Lemma linesOf_prefix x y :
  allChars (non isNewline) x = true ->
  linesOf (x ++ y)
  = match linesOf y with
    | l :: ls => (x ++ l)%string :: ls
    | [] => [x]
    end.
Proof.
  induction x as [|a x IH]; cbn.
  - intros _. destruct y as [|b y]; cbn; [reflexivity|].
    destruct (isNewline b); [reflexivity|]. now destruct (linesOf y).
  - unfold non at 1. destruct (isNewline a); cbn; [discriminate|].
    intros H. rewrite (IH H). now destruct (linesOf y).
Qed.

Lemma linesOf_concat l :
  l <> [] ->
  Forall (fun s => allChars (non isNewline) s = true) l ->
  linesOf (String.concat newline l) = l.
Proof.
  induction l as [|x l IH]; [contradiction|].
  intros _ F. inversion F as [|? ? Hx Hl]; subst.
  destruct l as [|y l].
  - cbn. rewrite <- (append_empty_r x) at 1.
    rewrite linesOf_prefix by exact Hx. cbn. now rewrite append_empty_r.
  - change (String.concat newline (x :: y :: l))
      with (x ++ newline ++ String.concat newline (y :: l))%string.
    rewrite linesOf_prefix by exact Hx.
    change (linesOf (newline ++ String.concat newline (y :: l)))
      with (EmptyString :: linesOf (String.concat newline (y :: l))).
    rewrite IH by (discriminate || exact Hl).
    now rewrite append_empty_r.
Qed.

Lemma textLine_one_line fileName i :
  allChars (non isNewline) fileName = true -> oneLine i = true ->
  allChars (non isNewline) (textLine fileName i) = true.
Proof.
  intros Hf Hi. unfold oneLine in Hi.
  apply andb_true_iff in Hi as [Hi Hs]. apply andb_true_iff in Hi as [Hm Hr].
  unfold textLine. rewrite !allChars_app, Hf, Hm, Hr, Hs.
  rewrite (showNumber_digits (non isNewline))
    by (intros a Ha; now apply digit_marks).
  reflexivity.
Qed.

(** X15.  The text report has one line per diagnostic, in the order of
    the sequence: when neither the file name nor a field of a diagnostic
    holds a newline, cutting the report at its newlines gives back the
    lines of the diagnostics, each of the form
    [file:line: message [rule] [severity]]; the report of the empty sequence is
    the empty string, and there is no newline after the last line. *)
Theorem text_report_lines :
  forall (filePath : string) (issues : list diagnostic),
    allChars (non isNewline) (basename filePath) = true ->
    forallb oneLine issues = true ->
    exists report,
      formatOutput filePath issues "text" = Return (Text report) /\
      (issues = [] -> report = EmptyString) /\
      (issues <> [] ->
       linesOf report = map (textLine (basename filePath)) issues /\
       List.length (linesOf report) = List.length issues).
Proof.
  intros filePath issues Hf Hi. eexists. split; [reflexivity|].
  split; [now intros ->|].
  intros Hne.
  assert (E : linesOf (String.concat newline
                         (map (textLine (basename filePath)) issues))
              = map (textLine (basename filePath)) issues).
  { apply linesOf_concat.
    - destruct issues; [contradiction | discriminate].
    - apply Forall_forall. intros s Hs.
      apply in_map_iff in Hs as (i & <- & Hin).
      rewrite forallb_forall in Hi. apply textLine_one_line; auto. }
  split; [exact E|]. now rewrite E, length_map.
Qed.

Lemma text_report_lines_witness :
  exists report,
    formatOutput "docs/guide.md"
      [mkDiagnostic 3 "heading-case" "warning" "Heading case.";
       mkDiagnostic 9 "banned-phrases" "error" "Banned phrase."]
      "text" = Return (Text report) /\
    List.length (linesOf report) = 2.
Proof.
  destruct (text_report_lines "docs/guide.md"
    [mkDiagnostic 3 "heading-case" "warning" "Heading case.";
     mkDiagnostic 9 "banned-phrases" "error" "Banned phrase."]
    eq_refl eq_refl) as (report & Hr & _ & Hl).
  exists report. split; [exact Hr|].
  apply Hl. discriminate.
Defined.

Lemma textLine_nonempty fileName i : textLine fileName i <> EmptyString.
Proof. unfold textLine. destruct fileName; discriminate. Qed.

(** A line of the text report determines its diagnostic. *)
Lemma textLine_inj fileName i1 i2 :
  plainTags i1 = true -> plainTags i2 = true ->
  textLine fileName i1 = textLine fileName i2 -> i1 = i2.
Proof.
  destruct i1 as [l1 r1 s1 m1], i2 as [l2 r2 s2 m2].
  unfold plainTags, textLine. cbn [line rule severity message].
  intros T1 T2 H.
  apply andb_true_iff in T1 as [Hr1 Hs1]. apply andb_true_iff in T2 as [Hr2 Hs2].
  assert (D1 := showNumber_digits (non isColon) l1
                  (fun a Ha => proj1 (digit_marks a Ha))).
  assert (D2 := showNumber_digits (non isColon) l2
                  (fun a Ha => proj1 (digit_marks a Ha))).
  assert (Inj := showNumber_inj l1 l2).
  revert D1 D2 Inj H.
  generalize (showNumber l1) as n1, (showNumber l2) as n2.
  intros n1 n2 D1 D2 Inj H.
  apply append_cancel_l in H.
  change (String ":" (n1 ++ String ":" (String " "
            (m1 ++ " [" ++ r1 ++ "] [" ++ s1 ++ "]")))
          = String ":" (n2 ++ String ":" (String " "
              (m2 ++ " [" ++ r2 ++ "] [" ++ s2 ++ "]"))))%string in H.
  injection H as H.
  apply (cut_at_first isColon ":"%char eq_refl) in H as [En H]; auto.
  injection H as H.
  assert (R : forall m r s,
             (m ++ " [" ++ r ++ "] [" ++ s ++ "]"
              = (m ++ " [" ++ r ++ "] ") ++ String "[" (s ++ "]"))%string)
    by (intros; rewrite !append_assoc; reflexivity).
  assert (H' : ((m1 ++ " [" ++ r1 ++ "] ") ++ String "[" (s1 ++ "]")
                = (m2 ++ " [" ++ r2 ++ "] ") ++ String "[" (s2 ++ "]"))%string)
    by (rewrite <- !R; exact H).
  clear H. rename H' into H.
  apply (cut_at_last isBracket "["%char eq_refl) in H as [H Es];
    try (rewrite allChars_app; cbn; rewrite ?Hs1, ?Hs2; reflexivity).
  apply append_cancel_r in Es.
  assert (R' : forall m r,
             (m ++ " [" ++ r ++ "] "
              = (m ++ " ") ++ String "[" (r ++ "] "))%string)
    by (intros; rewrite !append_assoc; reflexivity).
  rewrite !R' in H.
  apply (cut_at_last isBracket "["%char eq_refl) in H as [Em Er];
    try (rewrite allChars_app; cbn; rewrite ?Hr1, ?Hr2; reflexivity).
  apply append_cancel_r in Em, Er.
  rewrite (Inj En). now subst.
Qed.

Lemma map_textLine_inj fileName l1 :
  forall l2,
    forallb plainTags l1 = true -> forallb plainTags l2 = true ->
    map (textLine fileName) l1 = map (textLine fileName) l2 -> l1 = l2.
Proof.
  induction l1 as [|i1 l1 IH]; intros [|i2 l2] P1 P2 H;
    try discriminate H; [reflexivity|].
  cbn in *. injection H as Hi Hl.
  apply andb_true_iff in P1 as [Pi1 P1]. apply andb_true_iff in P2 as [Pi2 P2].
  f_equal; [now apply (textLine_inj fileName) | now apply IH].
Qed.

(** X16.  The text report loses nothing: when no field holds a newline
    and neither the rule ids nor the severities hold an opening bracket,
    a line of the report determines the line number, the message, the
    rule id and the severity of its diagnostic, and two sequences of
    diagnostics with the same report for one file are the same. *)
Theorem text_report_determines_diagnostics :
  forall (filePath : string) (issues1 issues2 : list diagnostic),
    allChars (non isNewline) (basename filePath) = true ->
    forallb oneLine issues1 = true -> forallb oneLine issues2 = true ->
    forallb plainTags issues1 = true -> forallb plainTags issues2 = true ->
    (forall i1 i2,
        In i1 issues1 -> In i2 issues2 ->
        textLine (basename filePath) i1 = textLine (basename filePath) i2 ->
        i1 = i2) /\
    (formatOutput filePath issues1 "text" = formatOutput filePath issues2 "text" ->
     issues1 = issues2).
Proof.
  intros filePath issues1 issues2 Hf O1 O2 P1 P2. split.
  - intros i1 i2 H1 H2. rewrite forallb_forall in P1, P2.
    apply textLine_inj; auto.
  - intros H. unfold formatOutput in H. cbn in H. injection H as H.
    assert (L : forall issues,
               forallb oneLine issues = true -> issues <> [] ->
               linesOf (String.concat newline
                          (map (textLine (basename filePath)) issues))
               = map (textLine (basename filePath)) issues).
    { intros issues O Hne. apply linesOf_concat.
      - destruct issues; [contradiction | discriminate].
      - apply Forall_forall. intros s Hs.
        apply in_map_iff in Hs as (i & <- & Hin).
        rewrite forallb_forall in O. apply textLine_one_line; auto. }
    apply (f_equal linesOf) in H.
    destruct issues1 as [|a l1], issues2 as [|b l2]; [reflexivity | | |].
    + rewrite (L (b :: l2)) in H by (auto; discriminate).
      cbn in H. injection H as H _. symmetry in H.
      now apply textLine_nonempty in H.
    + rewrite (L (a :: l1)) in H by (auto; discriminate).
      cbn in H. injection H as H _. now apply textLine_nonempty in H.
    + rewrite (L (a :: l1)), (L (b :: l2)) in H by (auto; discriminate).
      now apply (map_textLine_inj (basename filePath)).
Qed.

Lemma text_report_determines_diagnostics_witness :
  [mkDiagnostic 3 "heading-case" "warning" "Use [brackets] freely: ok"]
  = [mkDiagnostic 3 "heading-case" "warning" "Use [brackets] freely: ok"].
Proof.
  exact (proj2 (text_report_determines_diagnostics "docs/guide.md"
    [mkDiagnostic 3 "heading-case" "warning" "Use [brackets] freely: ok"]
    [mkDiagnostic 3 "heading-case" "warning" "Use [brackets] freely: ok"]
    eq_refl eq_refl eq_refl eq_refl eq_refl) eq_refl).
Defined.

(** ** The file name of the report *)

Lemma truthy_append a b : truthy (a ++ b) = truthy a || truthy b.
Proof. now destruct a. Qed.

Lemma lastComponent_name name :
  forall last cur,
    allChars (non (fun c => Ascii.eqb c "/"%char)) name = true ->
    lastComponent name last cur
    = if truthy (cur ++ name) then (cur ++ name)%string else last.
Proof.
  induction name as [|c name IH]; intros last cur H; cbn in *.
  - now rewrite append_empty_r.
  - unfold non at 1 in H. destruct (Ascii.eqb c "/"%char); [discriminate|].
    rewrite IH by exact H. now rewrite append_assoc.
Qed.

Lemma lastComponent_dir dir rest :
  forall last cur,
    exists last',
      lastComponent (dir ++ String "/"%char rest) last cur
      = lastComponent rest last' EmptyString.
Proof.
  induction dir as [|c dir IH]; intros last cur; cbn.
  - eauto.
  - destruct (Ascii.eqb c "/"%char); apply IH.
Qed.

Lemma lastComponent_slash path :
  forall last cur,
    lastComponent (path ++ "/") last cur = lastComponent path last cur.
Proof.
  induction path as [|c path IH]; intros last cur; cbn.
  - reflexivity.
  - destruct (Ascii.eqb c "/"%char); apply IH.
Qed.

(** X17.  The report names the file by the last component of its path:
    for a name that is not empty and holds no slash, every directory in
    front gives the report of the bare name, in every format; and a slash
    at the end of the path changes nothing. *)
Theorem report_ignores_directory :
  forall (dir name : string) (issues : list diagnostic) (fmt : string),
    name <> EmptyString ->
    allChars (non (fun c => Ascii.eqb c "/"%char)) name = true ->
    basename (dir ++ "/" ++ name) = name /\
    formatOutput (dir ++ "/" ++ name) issues fmt = formatOutput name issues fmt /\
    formatOutput (dir ++ "/" ++ name ++ "/") issues fmt
    = formatOutput name issues fmt.
Proof.
  intros dir name issues fmt Hne Hname.
  assert (Hn : forall last, lastComponent name last EmptyString = name).
  { intros last. rewrite lastComponent_name by exact Hname. cbn.
    destruct name; [contradiction | reflexivity]. }
  assert (B1 : basename (dir ++ "/" ++ name) = name).
  { unfold basename.
    change (dir ++ "/" ++ name)%string with (dir ++ String "/"%char name)%string.
    destruct (lastComponent_dir dir name EmptyString EmptyString) as [l ->].
    apply Hn. }
  assert (B2 : basename (dir ++ "/" ++ name ++ "/") = name).
  { unfold basename.
    replace (dir ++ "/" ++ name ++ "/")%string
      with ((dir ++ "/" ++ name) ++ "/")%string
      by (rewrite !append_assoc; reflexivity).
    rewrite lastComponent_slash. exact B1. }
  assert (B0 : basename name = name) by apply Hn.
  split; [exact B1|].
  unfold formatOutput. rewrite B0, B1, B2. split; reflexivity.
Qed.

Lemma report_ignores_directory_witness :
  basename "/home/me/docs/guide.md" = "guide.md".
Proof.
  refine (proj1 (report_ignores_directory "/home/me/docs" "guide.md" [] "text"
                   _ eq_refl)).
  discriminate.
Defined.
